(** * Skylark BI Agent: the chat front end's turn handling

    A shallow embedding of the two front ends of the repository,

      - [frontend/src/App.jsx] with [components/SidePanel.jsx] and the
        trace panel (module [App]), and
      - [frontend/assets/app.jsx] (module [Assets]),

    followed by the properties of their [sendMessage] operation: the
    matching of [tool_result] events to trace entries, the [done]
    marker, the bounded conversation history, and the guards.

    React state is modelled by explicit state passing: a [World] holds
    the component's state variables next to the things the component
    talks to (the store of history arrays, the host's clock and random
    source, the requests issued).  A state updater [setX(prev => ...)]
    is applied at the point where the source calls it, and a handler
    reads the state of the render it is invoked from, which is taken to
    be current.  Where an updater calls the clock or the random source,
    the call is made at that point as well; React makes it when it runs
    the updater, so which reading an identifier or time stamp of
    [assets/app.jsx] gets is left out of the statements (see
    [Assets.anonymous]).

    [sendMessage] is given twice: as one function of the response, for
    a turn that runs to its end undisturbed, and as the steps between
    its [await]s ([begin], [deliver], [finish]), between which other
    handlers can run.  The first is the composition of the second. *)

From Stdlib Require Import ZArith Lia Bool.
From stdpp Require Import base option list strings pretty.

Local Open Scope string_scope.
Local Open Scope list_scope.

(** ** JavaScript values and the string operations the code uses *)

Module JS.

(** What [JSON.parse] returns, plus [undefined].  Numbers of the
    protocol are counts, kept as integers. *)
#[warnings="-register-all"]
Inductive value :=
| VUndef
| VNull
| VBool (b : bool)
| VNum (n : Z)
| VStr (s : string)
| VArr (items : list value)
| VObj (fields : list (string * value)).

(** ToBoolean: what [if (v)], [!v], [a || b] test. *)
Definition truthy (v : value) : bool :=
  match v with
  | VUndef | VNull => false
  | VBool b => b
  | VNum n => negb (n =? 0)%Z
  | VStr s => negb (String.eqb s "")
  | VArr _ | VObj _ => true
  end.

(** [a || b] *)
Definition or_else (a b : value) : value := if truthy a then a else b.

(** [a ?? b] *)
Definition nullish (a b : value) : value :=
  match a with
  | VUndef | VNull => b
  | _ => a
  end.

(** [a === b].  Arrays and objects compare by reference; wherever the
    code compares two values they were read from two different parsed
    events, so two arrays or objects are never the same one. *)
Definition strict_eq (a b : value) : bool :=
  match a, b with
  | VUndef, VUndef => true
  | VNull, VNull => true
  | VBool x, VBool y => Bool.eqb x y
  | VNum x, VNum y => (x =? y)%Z
  | VStr x, VStr y => String.eqb x y
  | _, _ => false
  end.

Fixpoint lookup_field (k : string) (fields : list (string * value)) : value :=
  match fields with
  | [] => VUndef
  | (k', v) :: rest => if String.eqb k k' then v else lookup_field k rest
  end.

(** [v.k] for the keys the code reads ([type], [name], [args],
    [item_count], [data_quality], [content], [message]): [None] is the
    TypeError raised on [null] and [undefined]; the other primitives
    and arrays have no such property. *)
Definition get (v : value) (k : string) : option value :=
  match v with
  | VUndef | VNull => None
  | VObj fields => Some (lookup_field k fields)
  | _ => Some VUndef
  end.

(** Strings are sequences of code units below 256.  White space, as
    [String.prototype.trim] sees it in that range: TAB, LF, VT, FF, CR,
    SPACE and NBSP. *)
Definition is_space (c : Ascii.ascii) : bool :=
  let n := Ascii.nat_of_ascii c in
  (Nat.leb 9 n && Nat.leb n 13) || Nat.eqb n 32 || Nat.eqb n 160.

Fixpoint trimStart (s : string) : string :=
  match s with
  | EmptyString => EmptyString
  | String c r => if is_space c then trimStart r else s
  end.

Fixpoint trimEnd (s : string) : string :=
  match s with
  | EmptyString => EmptyString
  | String c r =>
      match trimEnd r with
      | EmptyString => if is_space c then EmptyString else String c EmptyString
      | r' => String c r'
      end
  end.

(** [s.trim()] *)
Definition trim (s : string) : string := trimEnd (trimStart s).

(** [s.startsWith(p)] *)
Definition startsWith (s p : string) : bool := String.prefix p s.

(** [s.slice(n)] for [0 <= n] *)
Fixpoint slice (n : nat) (s : string) : string :=
  match n, s with
  | O, _ => s
  | S n', String _ r => slice n' r
  | S _, EmptyString => EmptyString
  end.

Definition newline : Ascii.ascii := Ascii.ascii_of_nat 10.

(** [s.split('\n')]: never empty. *)
Fixpoint split_newline (s : string) : list string :=
  match s with
  | EmptyString => [EmptyString]
  | String c r =>
      if Ascii.eqb c newline then EmptyString :: split_newline r
      else match split_newline r with
           | h :: t => String c h :: t
           | [] => [String c EmptyString]
           end
  end.

(** [lines.pop()]: the array without its last element, and that
    element ([undefined] on an empty array). *)
Definition pop {A} (l : list A) : list A * option A :=
  (take (length l - 1) l, last l).

(** [a.slice(-n)]: the last [n] elements. *)
Definition slice_last {A} (n : nat) (l : list A) : list A :=
  drop (length l - n) l.

(** The lines a text has in full: what [split] gives without the
    unfinished last line, which stays in the buffer. *)
Definition complete_lines (text : string) : list string :=
  fst (pop (split_newline text)).

(** The text of a stream read in several chunks. *)
Definition stream_text (chunks : list string) : string :=
  foldr String.append "" chunks.

(** A text of white space only (the empty text included). *)
Fixpoint blank (s : string) : bool :=
  match s with
  | EmptyString => true
  | String c r => is_space c && blank r
  end.

(** The text has a line feed somewhere. *)
Fixpoint has_newline (s : string) : bool :=
  match s with
  | EmptyString => false
  | String c r => Ascii.eqb c newline || has_newline r
  end.

(** What the browser supplies.  [JSON_parse] gives [None] where
    [JSON.parse] raises; [ToString] is the conversion a template
    literal applies; [Date_now k] is the clock and [Math_random k] the
    printed random number at the [k]-th call to the host. *)
Class Host := {
  JSON_parse : string → option value;
  ToString : value → string;
  Date_now : nat → Z;
  Math_random : nat → string;
  TypeError_message : string;
}.

End JS.
Import JS.

(** ** The store of arrays

  The conversation history is an array object that a reference
  ([historyRef.current], the [history] state variable) points to.
  Arrays are allocated at the next free address and never freed. *)

Module Store.

Abbreviation loc := nat (only parsing).
Abbreviation store A := (list (list A)) (only parsing).

Definition read {A} (h : store A) (l : loc) : list A := default [] (h !! l).

Definition alloc {A} (a : list A) (h : store A) : loc * store A :=
  (length h, h ++ [a]).

(** [[...a, x, y]]: a new array. *)
Definition spread_with {A} (l : loc) (extra : list A) (h : store A) : loc * store A :=
  alloc (read h l ++ extra) h.

(** [a.slice(-n)]: a new array. *)
Definition slice_last {A} (n : nat) (l : loc) (h : store A) : loc * store A :=
  alloc (JS.slice_last n (read h l)) h.

End Store.

(** ** What both front ends exchange with the server *)

(** One [{ role, content }] element of the conversation history. *)
Module Entry.
Record t := { role : string; content : value }.
End Entry.

(** The body of the POST to [/api/chat]: the history is serialised
    ([JSON.stringify]) when the request is made. *)
Module Request.
Record t := { message : string; history : list Entry.t }.
End Request.

(** The two entries a turn adds to the history. *)
Definition exchange (text : string) (reply : value) : list Entry.t :=
  [ {| Entry.role := "user"; Entry.content := VStr text |};
    {| Entry.role := "assistant"; Entry.content := reply |} ].

(** The history consists of whole exchanges: a user entry, then an
    assistant entry, and so on. *)
Fixpoint paired (h : list Entry.t) : bool :=
  match h with
  | [] => true
  | u :: a :: rest =>
      String.eqb (Entry.role u) "user" && String.eqb (Entry.role a) "assistant"
      && paired rest
  | _ => false
  end.

(** How [reader.read()] ends once the chunks are exhausted. *)
Inductive Ending :=
| Closed
| ReadRejects (reason : string).

(** What [fetch] comes back with, for a request and reads that all
    settle.  The chunks are the decoded text of the successive reads.
    A response that never settles has no value here: it is a turn that
    has begun ([begin], [deliver]) and is never finished. *)
Inductive Response :=
| FetchRejects (reason : string)
| NotOk (status : Z)
| NoBody
| Body (chunks : list string) (ending : Ending).

(** ** [frontend/src/App.jsx] *)

Module App.

Module Message.
Record t := {
  id : string;
  role : string;
  content : value;
  pending : value;
  error : value;
}.
End Message.

Module Trace.
Record t := {
  id : string;
  type : string;
  name : value;
  args : value;
  resolved : bool;
  itemCount : value;
  dataQuality : value;
}.
End Trace.

Record World := {
  messages : list Message.t;
  traces : list Trace.t;
  input : string;
  streaming : bool;
  historyRef : Store.loc;
  arrays : Store.store Entry.t;
  hostCalls : nat;
  fetched : list Request.t;
}.

Definition setMessages (f : list Message.t → list Message.t) (w : World) : World :=
  {| messages := f (messages w); traces := traces w; input := input w;
     streaming := streaming w; historyRef := historyRef w; arrays := arrays w;
     hostCalls := hostCalls w; fetched := fetched w |}.

Definition setTraces (f : list Trace.t → list Trace.t) (w : World) : World :=
  {| messages := messages w; traces := f (traces w); input := input w;
     streaming := streaming w; historyRef := historyRef w; arrays := arrays w;
     hostCalls := hostCalls w; fetched := fetched w |}.

Definition setInput (s : string) (w : World) : World :=
  {| messages := messages w; traces := traces w; input := s;
     streaming := streaming w; historyRef := historyRef w; arrays := arrays w;
     hostCalls := hostCalls w; fetched := fetched w |}.

Definition setStreaming (b : bool) (w : World) : World :=
  {| messages := messages w; traces := traces w; input := input w;
     streaming := b; historyRef := historyRef w; arrays := arrays w;
     hostCalls := hostCalls w; fetched := fetched w |}.

Definition setHistory (r : Store.loc * Store.store Entry.t) (w : World) : World :=
  {| messages := messages w; traces := traces w; input := input w;
     streaming := streaming w; historyRef := fst r; arrays := snd r;
     hostCalls := hostCalls w; fetched := fetched w |}.

(** [n] more calls to [Date.now()] or [Math.random()] were made. *)
Definition hostCalled (n : nat) (w : World) : World :=
  {| messages := messages w; traces := traces w; input := input w;
     streaming := streaming w; historyRef := historyRef w; arrays := arrays w;
     hostCalls := n + hostCalls w; fetched := fetched w |}.

Definition fetch (r : Request.t) (w : World) : World :=
  {| messages := messages w; traces := traces w; input := input w;
     streaming := streaming w; historyRef := historyRef w; arrays := arrays w;
     hostCalls := hostCalls w; fetched := fetched w ++ [r] |}.

(** The state of a freshly mounted component: [useRef([])] allocates
    the first history array. *)
Definition initial : World :=
  {| messages := []; traces := []; input := ""; streaming := false;
     historyRef := 0; arrays := [[]]; hostCalls := 0; fetched := [] |}.

(** [historyRef.current], dereferenced. *)
Definition history_of (w : World) : list Entry.t := Store.read (arrays w) (historyRef w).

(** The locals of [sendMessage] that outlive the [try] block. *)
Record Locals := { finalContent : value; doneSignal : bool }.

(** [event.k] once [event.type] has been read without a TypeError. *)
Definition prop (event : value) (k : string) : value := default VUndef (get event k).

(** [{ ...t, resolved: true, itemCount: ..., dataQuality: ... }] *)
Definition resolve (item_count data_quality : value) (t : Trace.t) : Trace.t :=
  {| Trace.id := Trace.id t; Trace.type := Trace.type t; Trace.name := Trace.name t;
     Trace.args := Trace.args t; Trace.resolved := true;
     Trace.itemCount := item_count; Trace.dataQuality := data_quality |}.

(** The test of the [tool_result] case. *)
Definition awaits (name : value) (t : Trace.t) : bool :=
  strict_eq (Trace.name t) name && String.eqb (Trace.type t) "call" && negb (Trace.resolved t).

(** [prev.map(t => ...)] of the [tool_result] case, with its [patched] flag. *)
Fixpoint patch (name item_count data_quality : value) (patched : bool)
    (prev : list Trace.t) : list Trace.t :=
  match prev with
  | [] => []
  | t :: rest =>
      if negb patched && awaits name t
      then resolve item_count data_quality t :: patch name item_count data_quality true rest
      else t :: patch name item_count data_quality patched rest
  end.

(** [prev.map(m => m.id === assistantId ? { ...m, ... } : m)] *)
Definition update_assistant (assistantId : string) (f : Message.t → Message.t)
    (prev : list Message.t) : list Message.t :=
  map (λ m, if String.eqb (Message.id m) assistantId then f m else m) prev.

Definition answered (content : value) (m : Message.t) : Message.t :=
  {| Message.id := Message.id m; Message.role := Message.role m;
     Message.content := content; Message.pending := VBool false;
     Message.error := Message.error m |}.

Definition failed (content : string) (m : Message.t) : Message.t :=
  {| Message.id := Message.id m; Message.role := Message.role m;
     Message.content := VStr content; Message.pending := VBool false;
     Message.error := VBool true |}.

Definition settle (m : Message.t) : Message.t :=
  if truthy (Message.pending m)
  then {| Message.id := Message.id m; Message.role := Message.role m;
          Message.content := Message.content m; Message.pending := VBool false;
          Message.error := Message.error m |}
  else m.

(** The [switch (event.type)] of the frame loop.  A TypeError on
    [event.type] is caught by the [try] around the frame. *)
Definition on_event `{Host} (assistantId : string) (event : value)
    (s : Locals * World) : Locals * World :=
  let '(l, w) := s in
  match get event "type" with
  | None => s
  | Some ty =>
      if strict_eq ty (VStr "tool_call") then
        let id := "tc-" +:+ ToString (VNum (Date_now (hostCalls w)))
                   +:+ "-" +:+ Math_random (S (hostCalls w)) in
        let t := {| Trace.id := id; Trace.type := "call";
                    Trace.name := prop event "name";
                    Trace.args := nullish (prop event "args") (VObj []);
                    Trace.resolved := false;
                    Trace.itemCount := VUndef; Trace.dataQuality := VUndef |} in
        (l, hostCalled 2 (setTraces (λ prev, prev ++ [t]) w))
      else if strict_eq ty (VStr "tool_result") then
        (l, setTraces (patch (prop event "name") (prop event "item_count")
                             (prop event "data_quality") false) w)
      else if strict_eq ty (VStr "message") then
        ({| finalContent := prop event "content"; doneSignal := doneSignal l |},
         setMessages (update_assistant assistantId (answered (prop event "content"))) w)
      else if strict_eq ty (VStr "error") then
        (l, setMessages (update_assistant assistantId
                           (failed ("**Error:** " +:+ ToString (prop event "message")))) w)
      else if strict_eq ty (VStr "done") then
        ({| finalContent := finalContent l; doneSignal := true |}, w)
      else s
  end.

(** One iteration of [for (const line of lines)], up to the test of
    [doneSignal] that ends it. *)
Definition process_line `{Host} (assistantId : string) (line : string)
    (s : Locals * World) : Locals * World :=
  if negb (startsWith line "data: ") then s
  else match JSON_parse (slice 6 line) with
       | None => s
       | Some event => on_event assistantId event s
       end.

Fixpoint process_lines `{Host} (assistantId : string) (lines : list string)
    (s : Locals * World) : Locals * World :=
  match lines with
  | [] => s
  | line :: rest =>
      let s' := process_line assistantId line s in
      if doneSignal (fst s') then s' else process_lines assistantId rest s'
  end.

(** [while (!doneSignal) { ... reader.read() ... }]: the state it ends
    in and what it threw, if anything. *)
Fixpoint read_loop `{Host} (assistantId : string) (chunks : list string)
    (ending : Ending) (buffer : string) (s : Locals * World)
    : (Locals * World) * option string :=
  if doneSignal (fst s) then (s, None)
  else match chunks with
       | [] => match ending with
               | Closed => (s, None)
               | ReadRejects reason => (s, Some reason)
               end
       | chunk :: rest =>
           let '(lines, lastLine) := pop (split_newline (buffer +:+ chunk)) in
           read_loop assistantId rest ending (default "" lastLine)
                     (process_lines assistantId lines s)
       end.

(** The [try] block once the request is on its way: the state it
    leaves and what it threw, if anything. *)
Definition try_block `{Host} (assistantId : string) (resp : Response)
    (s : Locals * World) : (Locals * World) * option string :=
  match resp with
  | FetchRejects reason => (s, Some reason)
  | NotOk status => (s, Some ("Server error " +:+ ToString (VNum status)))
  | NoBody => (s, Some TypeError_message)
  | Body chunks ending => read_loop assistantId chunks ending "" s
  end.

(** The history update of the [finally] block. *)
Definition remember (msgText : string) (finalContent : value) (w : World) : World :=
  let '(copy, h1) :=
    Store.spread_with (historyRef w)
      [ {| Entry.role := "user"; Entry.content := VStr msgText |};
        {| Entry.role := "assistant"; Entry.content := finalContent |} ]
      (arrays w) in
  setHistory (Store.slice_last 40 copy h1) w.

Definition sendMessage `{Host} (text : string) (resp : Response) (w : World) : World :=
  let msgText := trim text in
  if negb (truthy (VStr msgText)) || streaming w then w
  else
    let w := setTraces (λ _, []) (setInput "" (setStreaming true w)) in
    let userId := "u-" +:+ ToString (VNum (Date_now (hostCalls w))) in
    let assistantId := "a-" +:+ ToString (VNum (Date_now (S (hostCalls w)))) in
    let w := hostCalled 2 w in
    let w := setMessages (λ prev, prev ++
               [ {| Message.id := userId; Message.role := "user";
                    Message.content := VStr msgText;
                    Message.pending := VUndef; Message.error := VUndef |};
                 {| Message.id := assistantId; Message.role := "assistant";
                    Message.content := VStr "";
                    Message.pending := VBool true; Message.error := VUndef |} ]) w in
    let l := {| finalContent := VStr ""; doneSignal := false |} in
    let w := fetch {| Request.message := msgText; Request.history := history_of w |} w in
    let '((l, w), thrown) := try_block assistantId resp (l, w) in
    let w :=
      match thrown with
      | Some reason =>
          setMessages (update_assistant assistantId
                         (failed ("**Connection error:** " +:+ reason))) w
      | None => w
      end in
    let w := setMessages (map settle) (setStreaming false w) in
    if truthy (finalContent l) then remember msgText (finalContent l) w else w.

(** *** Notions the statements use *)

(** The event a line of the stream hands to the [switch], if any. *)
Definition frame_event `{Host} (line : string) : option value :=
  if startsWith line "data: " then JSON_parse (slice 6 line) else None.

Definition has_type (ty : string) (event : value) : bool :=
  match get event "type" with
  | Some t => strict_eq t (VStr ty)
  | None => false
  end.

(** The line is a frame whose event has type [ty]. *)
Definition carries `{Host} (ty : string) (line : string) : bool :=
  match frame_event line with
  | Some event => has_type ty event
  | None => false
  end.

(** No line the response delivers in full is a [message] frame. *)
Definition no_message `{Host} (resp : Response) : bool :=
  match resp with
  | Body chunks _ =>
      forallb (λ line, negb (carries "message" line)) (complete_lines (stream_text chunks))
  | _ => true
  end.

(** What may become of a trace entry: nothing, or the one transition of
    an entry that is not resolved yet. *)
Definition evolves (t t' : Trace.t) : Prop :=
  t' = t ∨
  (Trace.resolved t = false ∧
   ∃ item_count data_quality, t' = resolve item_count data_quality t).

(** Every entry of [before] is still there, at its place, evolved. *)
Definition traces_evolve (before after : list Trace.t) : Prop :=
  ∀ i t, before !! i = Some t → ∃ t', after !! i = Some t' ∧ evolves t t'.

(** The reference to the history array points into the store. *)
Definition history_allocated (w : World) : Prop := historyRef w < length (arrays w).

(** A turn starts: the guard of [sendMessage] lets the call through. *)
Definition accepted (text : string) (w : World) : bool :=
  negb (blank text) && negb (streaming w).

(** A session: the turns taken one after the other, each with the
    text sent and the response the server gave. *)
Definition session `{Host} (turns : list (string * Response)) (w : World) : World :=
  foldl (λ w turn, sendMessage (fst turn) (snd turn) w) w turns.

(** What the frame loop has no business with: everything but
    [messages], [traces] and the count of host calls. *)
Definition same_session (w w' : World) : Prop :=
  historyRef w' = historyRef w ∧ arrays w' = arrays w ∧
  input w' = input w ∧ streaming w' = streaming w ∧
  fetched w' = fetched w.

(** *** [components/SidePanel.jsx] *)

Module SidePanel.

Record Board := { name : string; count : Z; color : string }.

Definition BOARDS : list Board :=
  [ {| name := "Deals Pipeline"; count := 346; color := "primary" |};
    {| name := "Work Orders"; count := 177; color := "warning" |} ].

(** What [BOARDS.map(...)] puts on the cards under "Connected Boards":
    the board's name and the number in front of "records".  Of the
    props ([onSend], [onClear], [streaming]) only [streaming] is data. *)
Definition cards (streaming : bool) : list (string * Z) :=
  map (λ b, (name b, count b)) BOARDS.

End SidePanel.

(** *** The trace panel *)

Module TracePanel.

(** The number on the "records returned" badge of a trace card, when
    the card has one: [trace.resolved && trace.itemCount != null]. *)
Definition badge (trace : Trace.t) : option value :=
  if Trace.resolved trace
  then match Trace.itemCount trace with
       | VUndef | VNull => None
       | n => Some n
       end
  else None.

End TracePanel.

(** [<SidePanel ... streaming={streaming} />] as [App] renders it. *)
Definition boards_shown (w : World) : list (string * Z) :=
  SidePanel.cards (streaming w).

(** The badges of [<TracePanel traces={traces} />], by tool name. *)
Definition counts_reported (w : World) : list (value * value) :=
  omap (λ t, pair (Trace.name t) <$> TracePanel.badge t) (traces w).

(** *** The rest of [App.jsx] and the chat area *)

Definition clearConversation (w : World) : World :=
  setHistory (Store.alloc [] (arrays w)) (setTraces (λ _, []) (setMessages (λ _, []) w)).

(** What the [try] block throws before any of the body is read. *)
Definition failure_reason `{Host} (resp : Response) : option string :=
  match resp with
  | FetchRejects reason => Some reason
  | NotOk status => Some ("Server error " +:+ ToString (VNum status))
  | NoBody => Some TypeError_message
  | Body _ _ => None
  end.

(** The identifiers [sendMessage] draws for the two messages of a turn. *)
Definition userId `{Host} (w : World) : string :=
  "u-" +:+ ToString (VNum (Date_now (hostCalls w))).

Definition assistantId `{Host} (w : World) : string :=
  "a-" +:+ ToString (VNum (Date_now (S (hostCalls w)))).

Module ChatArea.

(** [InputBox]: [isDisabled={!value.trim() || streaming}] on the send
    button, whose press calls [onSend(value)]. *)
Definition send_disabled (value : string) (streaming : bool) : bool :=
  negb (truthy (VStr (trim value))) || streaming.

Record KeyEvent := { key : string; shiftKey : bool }.

(** [handleKeyDown]: Enter without Shift calls [onSend(input)]. *)
Definition handleKeyDown `{Host} (e : KeyEvent) (resp : Response) (w : World) : World :=
  if String.eqb (key e) "Enter" && negb (shiftKey e)
  then sendMessage (input w) resp w
  else w.

End ChatArea.

(** *** [components/MessageCard.jsx] *)

Module MessageCard.



End MessageCard.

(** *** The messages of a turn *)

(** What a turn whose assistant message is [aid] may do to an earlier
    message: identifier and role stay, and the message stays as it is
    unless it shares the identifier or was still pending. *)
Definition kept (aid : string) (m m' : Message.t) : Prop :=
  Message.id m' = Message.id m ∧ Message.role m' = Message.role m ∧
  (String.eqb (Message.id m) aid = false → truthy (Message.pending m) = false → m' = m).

(** The messages during a turn: the earlier ones, kept; then the user
    message [u] of the turn; then its assistant message. *)
Definition turn_messages (aid : string) (old : list Message.t) (u : Message.t)
    (ms : list Message.t) : Prop :=
  ∃ old' a, ms = old' ++ [u; a] ∧ Forall2 (kept aid) old old' ∧
            Message.id a = aid ∧ Message.role a = "assistant".

(** The user message [sendMessage] adds for the text it was given. *)
Definition user_message `{Host} (text : string) (w : World) : Message.t :=
  {| Message.id := userId w; Message.role := "user";
     Message.content := VStr (trim text);
     Message.pending := VUndef; Message.error := VUndef |}.

(** *** The answer of a response

    A reading of the stream by which the statements name the answer a
    turn stores; it is compared with the [finalContent] that
    [sendMessage] ends with. *)

(** The lines the frame loop gets to: those up to the first [done]
    frame, that frame included. *)
Fixpoint handled `{Host} (lines : list string) : list string :=
  match lines with
  | [] => []
  | line :: rest => if carries "done" line then [line] else line :: handled rest
  end.

(** The content of the last [message] frame among the lines, and
    [fallback] if there is none. *)
Definition last_content `{Host} (fallback : value) (lines : list string) : value :=
  foldl (λ content line,
           match frame_event line with
           | Some event => if has_type "message" event then prop event "content" else content
           | None => content
           end)
        fallback lines.

(** The answer of a response: the content of the last [message] frame
    handled, the empty string if there is none. *)
Definition answer_of `{Host} (resp : Response) : value :=
  match resp with
  | Body chunks _ => last_content (VStr "") (handled (complete_lines (stream_text chunks)))
  | _ => VStr ""
  end.

(** *** A turn, step by step

    [sendMessage] is an [async] function: it runs up to the [await] of
    [fetch] and then from one [await reader.read()] to the next, and at
    each [await] other handlers of the component can run ("New
    Conversation", another [sendMessage]).  The steps below are the
    stretches of [sendMessage] between two [await]s.  For a response
    that ends, [sendMessage] above is [begin] followed by [complete];
    a response that never settles is a turn that has begun and is never
    finished. *)

(** What a call of [sendMessage] holds between its steps. *)
Module Turn.
Record t := {
  msgText : string;
  assistantId : string;
  locals : Locals;
  buffer : string;
}.
End Turn.

(** From the call to the [await] of [fetch]; [None] when the guard
    returns at once. *)
Definition begin `{Host} (text : string) (w : World) : option (Turn.t * World) :=
  let msgText := trim text in
  if negb (truthy (VStr msgText)) || streaming w then None
  else
    let w := setTraces (λ _, []) (setInput "" (setStreaming true w)) in
    let userId := "u-" +:+ ToString (VNum (Date_now (hostCalls w))) in
    let assistantId := "a-" +:+ ToString (VNum (Date_now (S (hostCalls w)))) in
    let w := hostCalled 2 w in
    let w := setMessages (λ prev, prev ++
               [ {| Message.id := userId; Message.role := "user";
                    Message.content := VStr msgText;
                    Message.pending := VUndef; Message.error := VUndef |};
                 {| Message.id := assistantId; Message.role := "assistant";
                    Message.content := VStr "";
                    Message.pending := VBool true; Message.error := VUndef |} ]) w in
    let w := fetch {| Request.message := msgText; Request.history := history_of w |} w in
    Some ({| Turn.msgText := msgText; Turn.assistantId := assistantId;
             Turn.locals := {| finalContent := VStr ""; doneSignal := false |};
             Turn.buffer := "" |}, w).

(** One [reader.read()] that brings a chunk, and the [for] loop over
    the lines it completes.  Once [doneSignal] is set the [while] loop
    has ended and nothing more is read. *)
Definition deliver `{Host} (chunk : string) (s : Turn.t * World) : Turn.t * World :=
  let '(turn, w) := s in
  if doneSignal (Turn.locals turn) then s
  else
    let '(lines, lastLine) := pop (split_newline (Turn.buffer turn +:+ chunk)) in
    let '(l, w) := process_lines (Turn.assistantId turn) lines (Turn.locals turn, w) in
    ({| Turn.msgText := Turn.msgText turn; Turn.assistantId := Turn.assistantId turn;
        Turn.locals := l; Turn.buffer := default "" lastLine |}, w).

(** The end of the call: [catch] if something was thrown, then
    [finally]. *)
Definition finish (thrown : option string) (s : Turn.t * World) : World :=
  let '(turn, w) := s in
  let w :=
    match thrown with
    | Some reason =>
        setMessages (update_assistant (Turn.assistantId turn)
                       (failed ("**Connection error:** " +:+ reason))) w
    | None => w
    end in
  let w := setMessages (map settle) (setStreaming false w) in
  if truthy (finalContent (Turn.locals turn))
  then remember (Turn.msgText turn) (finalContent (Turn.locals turn)) w
  else w.

(** How the [while] loop is left once the chunks are exhausted: by
    [doneSignal], by the end of the stream, or by the error of
    [reader.read()]. *)
Definition leaves (ending : Ending) (s : Turn.t * World) : option string :=
  if doneSignal (Turn.locals (fst s)) then None
  else match ending with
       | Closed => None
       | ReadRejects reason => Some reason
       end.

(** The steps of a turn that has begun, for a response that ends. *)
Definition complete `{Host} (resp : Response) (s : Turn.t * World) : World :=
  match resp with
  | FetchRejects reason => finish (Some reason) s
  | NotOk status => finish (Some ("Server error " +:+ ToString (VNum status))) s
  | NoBody => finish (Some TypeError_message) s
  | Body chunks ending =>
      let s' := foldl (λ s chunk, deliver chunk s) s chunks in
      finish (leaves ending s') s'
  end.

(** What can happen while a turn is running: a chunk arrives, or "New
    Conversation" is pressed. *)
Inductive Happening :=
| Delivered (chunk : string)
| Cleared.

Definition happen `{Host} (h : Happening) (s : Turn.t * World) : Turn.t * World :=
  match h with
  | Delivered chunk => deliver chunk s
  | Cleared => (fst s, clearConversation (snd s))
  end.

Definition during `{Host} (happenings : list Happening) (s : Turn.t * World)
    : Turn.t * World :=
  foldl (λ s h, happen h s) s happenings.

End App.

(** ** [frontend/assets/app.jsx] *)

Module Assets.

Module Message.
Record t := {
  id : string;
  role : string;
  content : value;
  timestamp : Z;
}.
End Message.

(** The three shapes of trace entry share one record; a key an entry
    does not have reads [undefined]. *)
Module Trace.
Record t := {
  id : string;
  type : string;
  name : value;
  args : value;
  resolved : value;
  item_count : value;
  message : value;
}.
End Trace.

Record World := {
  history : Store.loc;
  arrays : Store.store Entry.t;
  messages : list Message.t;
  traces : list Trace.t;
  input : string;
  streaming : bool;
  runState : string;
  leftOpen : bool;
  rightOpen : bool;
  isCompact : bool;
  hostCalls : nat;
  fetched : list Request.t;
}.

Definition setHistory (r : Store.loc * Store.store Entry.t) (w : World) : World :=
  {| history := fst r; arrays := snd r; messages := messages w; traces := traces w;
     input := input w; streaming := streaming w; runState := runState w;
     leftOpen := leftOpen w; rightOpen := rightOpen w; isCompact := isCompact w;
     hostCalls := hostCalls w; fetched := fetched w |}.

Definition setMessages (f : list Message.t → list Message.t) (w : World) : World :=
  {| history := history w; arrays := arrays w; messages := f (messages w);
     traces := traces w;
     input := input w; streaming := streaming w; runState := runState w;
     leftOpen := leftOpen w; rightOpen := rightOpen w; isCompact := isCompact w;
     hostCalls := hostCalls w; fetched := fetched w |}.

Definition setTraces (f : list Trace.t → list Trace.t) (w : World) : World :=
  {| history := history w; arrays := arrays w; messages := messages w;
     traces := f (traces w);
     input := input w; streaming := streaming w; runState := runState w;
     leftOpen := leftOpen w; rightOpen := rightOpen w; isCompact := isCompact w;
     hostCalls := hostCalls w; fetched := fetched w |}.

Definition setInput (s : string) (w : World) : World :=
  {| history := history w; arrays := arrays w; messages := messages w;
     traces := traces w;
     input := s; streaming := streaming w; runState := runState w;
     leftOpen := leftOpen w; rightOpen := rightOpen w; isCompact := isCompact w;
     hostCalls := hostCalls w; fetched := fetched w |}.

Definition setStreaming (b : bool) (w : World) : World :=
  {| history := history w; arrays := arrays w; messages := messages w;
     traces := traces w;
     input := input w; streaming := b; runState := runState w;
     leftOpen := leftOpen w; rightOpen := rightOpen w; isCompact := isCompact w;
     hostCalls := hostCalls w; fetched := fetched w |}.

Definition setRunState (s : string) (w : World) : World :=
  {| history := history w; arrays := arrays w; messages := messages w;
     traces := traces w;
     input := input w; streaming := streaming w; runState := s;
     leftOpen := leftOpen w; rightOpen := rightOpen w; isCompact := isCompact w;
     hostCalls := hostCalls w; fetched := fetched w |}.

Definition setLeftOpen (b : bool) (w : World) : World :=
  {| history := history w; arrays := arrays w; messages := messages w;
     traces := traces w;
     input := input w; streaming := streaming w; runState := runState w;
     leftOpen := b; rightOpen := rightOpen w; isCompact := isCompact w;
     hostCalls := hostCalls w; fetched := fetched w |}.

Definition setRightOpen (b : bool) (w : World) : World :=
  {| history := history w; arrays := arrays w; messages := messages w;
     traces := traces w;
     input := input w; streaming := streaming w; runState := runState w;
     leftOpen := leftOpen w; rightOpen := b; isCompact := isCompact w;
     hostCalls := hostCalls w; fetched := fetched w |}.

Definition hostCalled (n : nat) (w : World) : World :=
  {| history := history w; arrays := arrays w; messages := messages w;
     traces := traces w;
     input := input w; streaming := streaming w; runState := runState w;
     leftOpen := leftOpen w; rightOpen := rightOpen w; isCompact := isCompact w;
     hostCalls := n + hostCalls w; fetched := fetched w |}.

Definition fetch (r : Request.t) (w : World) : World :=
  {| history := history w; arrays := arrays w; messages := messages w;
     traces := traces w;
     input := input w; streaming := streaming w; runState := runState w;
     leftOpen := leftOpen w; rightOpen := rightOpen w; isCompact := isCompact w;
     hostCalls := hostCalls w; fetched := fetched w ++ [r] |}.

(** A freshly mounted component on a screen that is compact or not:
    [useState([])] allocates the first history array. *)
Definition initial (compact : bool) : World :=
  {| history := 0; arrays := [[]]; messages := []; traces := []; input := "";
     streaming := false; runState := "Idle"; leftOpen := false; rightOpen := false;
     isCompact := compact; hostCalls := 0; fetched := [] |}.

(** The [history] state variable, dereferenced. *)
Definition history_of (w : World) : list Entry.t := Store.read (arrays w) (history w).

(** [createId()], with [k] host calls made before it.  The source
    calls it (and [new Date()]) inside the updaters of [setTraces] and
    [setMessages]; below it is called where the updater is enqueued, so
    that identifiers and time stamps are drawn in program order. *)
Definition createId `{Host} (k : nat) : string :=
  ToString (VNum (Date_now k)) +:+ "-" +:+ slice 2 (Math_random (S k)).

(** [event.k] once [event.type] has been read without a TypeError. *)
Definition prop (event : value) (k : string) : value := default VUndef (get event k).

Definition addTraceCall `{Host} (event : value) (w : World) : World :=
  let t := {| Trace.id := createId (hostCalls w); Trace.type := "tool_call";
              Trace.name := or_else (prop event "name") (VStr "unknown_tool");
              Trace.args := or_else (prop event "args") (VObj []);
              Trace.resolved := VBool false;
              Trace.item_count := VUndef; Trace.message := VUndef |} in
  hostCalled 2 (setTraces (λ prev, prev ++ [t]) w).

(** The predicate handed to [findIndex] in [addTraceResult]. *)
Definition awaits (name : value) (item : Trace.t) : bool :=
  String.eqb (Trace.type item) "tool_call" && negb (truthy (Trace.resolved item))
  && strict_eq (Trace.name item) name.

(** [{ ...item, resolved: true, item_count: ... }] *)
Definition resolve (item_count : value) (item : Trace.t) : Trace.t :=
  {| Trace.id := Trace.id item; Trace.type := Trace.type item;
     Trace.name := Trace.name item; Trace.args := Trace.args item;
     Trace.resolved := VBool true; Trace.item_count := item_count;
     Trace.message := Trace.message item |}.

(** [a.findIndex(p)]: [None] stands for [-1]. *)
Definition findIndex {A} (p : A → bool) (a : list A) : option nat :=
  fst <$> list_find (λ x, p x = true) a.

(** [next[targetIndex] = { ...next[targetIndex], ... }] rewrites the
    element at an index that [findIndex] found, hence in range. *)
Definition addTraceResult `{Host} (event : value) (w : World) : World :=
  let prev := traces w in
  let next := prev in
  match findIndex (awaits (prop event "name")) (reverse next) with
  | Some index =>
      let targetIndex := length next - 1 - index in
      setTraces (λ _, alter (resolve (or_else (prop event "item_count") (VNum 0)))
                            targetIndex next) w
  | None =>
      let t := {| Trace.id := createId (hostCalls w); Trace.type := "tool_result";
                  Trace.name := or_else (prop event "name") (VStr "unknown_tool");
                  Trace.args := VUndef; Trace.resolved := VUndef;
                  Trace.item_count := or_else (prop event "item_count") (VNum 0);
                  Trace.message := VUndef |} in
      hostCalled 2 (setTraces (λ _, next ++ [t]) w)
  end.

Definition addTraceError `{Host} (message : value) (w : World) : World :=
  let t := {| Trace.id := createId (hostCalls w); Trace.type := "error";
              Trace.name := VStr "Runtime error";
              Trace.args := VUndef; Trace.resolved := VUndef;
              Trace.item_count := VUndef;
              Trace.message := or_else message (VStr "Unknown error") |} in
  hostCalled 2 (setTraces (λ prev, prev ++ [t]) w).

Definition pushMessage `{Host} (role : string) (text : value) (w : World) : World :=
  let m := {| Message.id := createId (hostCalls w); Message.role := role;
              Message.content := text;
              Message.timestamp := Date_now (2 + hostCalls w) |} in
  hostCalled 3 (setMessages (λ prev, prev ++ [m]) w).

Definition pushUserMessage `{Host} (text : string) : World → World :=
  pushMessage "user" (VStr text).

Definition pushAssistantMessage `{Host} (text : value) : World → World :=
  pushMessage "assistant" text.

(** The locals of [sendMessage]. *)
Record Locals := { assistantReply : value; hadError : bool }.

(** The chain of [if (event.type === ...)] of the frame loop, for an
    event whose [type] is [ty]. *)
Definition on_event `{Host} (ty event : value) (s : Locals * World) : Locals * World :=
  let '(l, w) := s in
  if strict_eq ty (VStr "tool_call") then
    (l, setRunState "Thinking" (addTraceCall event w))
  else if strict_eq ty (VStr "tool_result") then
    (l, setRunState "Thinking" (addTraceResult event w))
  else if strict_eq ty (VStr "message") then
    let reply := or_else (prop event "content") (VStr "") in
    ({| assistantReply := reply; hadError := hadError l |},
     setRunState "Streaming" (pushAssistantMessage reply w))
  else if strict_eq ty (VStr "error") then
    ({| assistantReply := assistantReply l; hadError := true |},
     setRunState "Error"
       (pushAssistantMessage
          (VStr ("**Error:** " +:+ ToString (or_else (prop event "message") (VStr "Unknown error"))))
          (addTraceError (prop event "message") w)))
  else if strict_eq ty (VStr "done") then
    (l, if hadError l then w else setRunState "Idle" w)
  else s.

(** One iteration of [for (const line of lines)]: the state after it
    and what it threw, if anything.  The TypeError of [event.type] on a
    [null] event is raised outside the [try] around [JSON.parse]. *)
Definition process_line `{Host} (line : string) (s : Locals * World)
    : (Locals * World) * option string :=
  if negb (startsWith line "data: ") then (s, None)
  else
    let raw := trim (slice 6 line) in
    if negb (truthy (VStr raw)) then (s, None)
    else match JSON_parse raw with
         | None => (s, None)
         | Some event =>
             match get event "type" with
             | None => (s, Some TypeError_message)
             | Some ty => (on_event ty event s, None)
             end
         end.

Fixpoint process_lines `{Host} (lines : list string) (s : Locals * World)
    : (Locals * World) * option string :=
  match lines with
  | [] => (s, None)
  | line :: rest =>
      match process_line line s with
      | (s', None) => process_lines rest s'
      | thrown => thrown
      end
  end.

(** [while (true) { ... reader.read() ... }] *)
Fixpoint read_loop `{Host} (chunks : list string) (ending : Ending) (buffer : string)
    (s : Locals * World) : (Locals * World) * option string :=
  match chunks with
  | [] => match ending with
          | Closed => (s, None)
          | ReadRejects reason => (s, Some reason)
          end
  | chunk :: rest =>
      let '(lines, lastLine) := pop (split_newline (buffer +:+ chunk)) in
      match process_lines lines s with
      | (s', None) => read_loop rest ending (default "" lastLine) s'
      | thrown => thrown
      end
  end.

(** The [try] block once the request is on its way: the state it
    leaves and what it threw, if anything. *)
Definition try_block `{Host} (resp : Response) (s : Locals * World)
    : (Locals * World) * option string :=
  match resp with
  | FetchRejects reason => (s, Some reason)
  | NotOk status => (s, Some ("HTTP " +:+ ToString (VNum status)))
  | NoBody => (s, Some "No response stream from server")
  | Body chunks ending => read_loop chunks ending "" s
  end.

(** The updater handed to [setHistory]. *)
Definition remember (text : string) (assistantReply : value) (w : World) : World :=
  let '(next, h1) :=
    Store.spread_with (history w)
      [ {| Entry.role := "user"; Entry.content := VStr text |};
        {| Entry.role := "assistant"; Entry.content := assistantReply |} ]
      (arrays w) in
  setHistory (Store.slice_last 20 next h1) w.

(** [sendMessage(override)]; [None] is a call without argument. *)
Definition sendMessage `{Host} (override : option string) (resp : Response)
    (w : World) : World :=
  let text := trim (default (input w) override) in
  if negb (truthy (VStr text)) || streaming w then w
  else
    let w := setTraces (λ _, []) (setInput "" (setRunState "Thinking" (setStreaming true w))) in
    let w := pushUserMessage text w in
    let w := if isCompact w then setRightOpen false (setLeftOpen false w) else w in
    let l := {| assistantReply := VStr ""; hadError := false |} in
    let w := fetch {| Request.message := text; Request.history := history_of w |} w in
    let '((l, w), thrown) := try_block resp (l, w) in
    let '(l, w) :=
      match thrown with
      | Some reason =>
          ({| assistantReply := assistantReply l; hadError := true |},
           setRunState "Error"
             (pushAssistantMessage (VStr ("**Connection error:** " +:+ reason))
                (addTraceError (VStr reason) w)))
      | None => (l, w)
      end in
    let w := if truthy (assistantReply l) then remember text (assistantReply l) w else w in
    let w := if hadError l then w else setRunState "Idle" w in
    setStreaming false w.

(** *** Notions the statements use *)

(** The event a line of the stream hands to the chain of [if]s, if any. *)
Definition frame_event `{Host} (line : string) : option value :=
  if startsWith line "data: "
  then let raw := trim (slice 6 line) in
       if truthy (VStr raw) then JSON_parse raw else None
  else None.

Definition has_type (ty : string) (event : value) : bool :=
  match get event "type" with
  | Some t => strict_eq t (VStr ty)
  | None => false
  end.

(** The line is a frame whose event has type [ty]. *)
Definition carries `{Host} (ty : string) (line : string) : bool :=
  match frame_event line with
  | Some event => has_type ty event
  | None => false
  end.

(** No line the response delivers in full is a [message] frame. *)
Definition no_message `{Host} (resp : Response) : bool :=
  match resp with
  | Body chunks _ =>
      forallb (λ line, negb (carries "message" line)) (complete_lines (stream_text chunks))
  | _ => true
  end.

(** What may become of a trace entry: nothing, or the one transition of
    a [tool_call] entry that is not resolved yet. *)
Definition evolves (t t' : Trace.t) : Prop :=
  t' = t ∨
  (Trace.type t = "tool_call" ∧ truthy (Trace.resolved t) = false ∧
   ∃ item_count, t' = resolve item_count t).

(** Every entry of [before] is still there, at its place, evolved. *)
Definition traces_evolve (before after : list Trace.t) : Prop :=
  ∀ i t, before !! i = Some t → ∃ t', after !! i = Some t' ∧ evolves t t'.

(** The reference to the history array points into the store. *)
Definition history_allocated (w : World) : Prop := history w < length (arrays w).

(** A turn starts: the guard of [sendMessage] lets the call through. *)
Definition accepted (override : option string) (w : World) : bool :=
  negb (blank (default (input w) override)) && negb (streaming w).

(** A session: the turns taken one after the other, each with the
    argument of [sendMessage] and the response the server gave. *)
Definition session `{Host} (turns : list (option string * Response)) (w : World) : World :=
  foldl (λ w turn, sendMessage (fst turn) (snd turn) w) w turns.

(** What the frame loop has no business with: everything but
    [messages], [traces], [runState] and the count of host calls. *)
Definition same_session (w w' : World) : Prop :=
  history w' = history w ∧ arrays w' = arrays w ∧
  input w' = input w ∧ streaming w' = streaming w ∧
  fetched w' = fetched w.

(** *** The side panel *)

Record Board := { name : string; meta : string }.

Definition BOARDS : list Board :=
  [ {| name := "Deals Pipeline"; meta := "346 records available" |};
    {| name := "Work Orders Tracker"; meta := "177 records available" |} ].

(** The board cards of [SidePanel]: name and the line under it.  None of
    its props ([onPromptSelect], [onClearConversation], [asDrawer])
    carries state of the conversation. *)
Definition boards_shown (w : World) : list (string * string) :=
  map (λ board, (name board, meta board)) BOARDS.

(** *** The rest of [App] *)

Module Toast.
Record t := { open : bool; message : string; severity : string }.
End Toast.

(** [showToast(message, severity = "success")] *)
Definition showToast (message : string) (severity : option string) : Toast.t :=
  {| Toast.open := true; Toast.message := message;
     Toast.severity := default "success" severity |}.

(** [clearConversation], on the world and the [toast] state variable. *)
Definition clearConversation (p : World * Toast.t) : World * Toast.t :=
  (setStreaming false
     (setRunState "Idle"
        (setInput ""
           (setTraces (λ _, [])
              (setMessages (λ _, [])
                 (setHistory (Store.alloc [] (arrays (fst p))) (fst p)))))),
   showToast "Conversation cleared" None).

(** [disabled={streaming || !input.trim()}] on the Send button, whose
    click calls [sendMessage()]. *)
Definition send_disabled (w : World) : bool :=
  streaming w || negb (truthy (VStr (trim (input w)))).

Record KeyEvent := { key : string; shiftKey : bool }.

(** [handleInputKeyDown]: Enter without Shift calls [sendMessage()]. *)
Definition handleInputKeyDown `{Host} (e : KeyEvent) (resp : Response) (w : World) : World :=
  if String.eqb (key e) "Enter" && negb (shiftKey e)
  then sendMessage None resp w
  else w.

(** What the [try] block throws before any of the body is read. *)
Definition failure_reason `{Host} (resp : Response) : option string :=
  match resp with
  | FetchRejects reason => Some reason
  | NotOk status => Some ("HTTP " +:+ ToString (VNum status))
  | NoBody => Some "No response stream from server"
  | Body _ _ => None
  end.

(** *** The trace panel *)

Module TracePanel.

(** [cardKind] of a trace card. *)
Definition cardKind (trace : Trace.t) : string :=
  let resolvedCall :=
    String.eqb (Trace.type trace) "tool_call" && truthy (Trace.resolved trace) in
  if String.eqb (Trace.type trace) "error" then "error"
  else if resolvedCall || String.eqb (Trace.type trace) "tool_result" then "result"
  else "call".

End TracePanel.

(** No complete line of the response is an [error] frame or carries
    the event [null], and the stream closes in the regular way. *)
Definition uneventful `{Host} (resp : Response) : bool :=
  match resp with
  | Body chunks Closed =>
      forallb (λ line, match frame_event line with
                       | Some event => negb (has_type "error" event)
                                       && bool_decide (is_Some (get event "type"))
                       | None => true
                       end)
              (complete_lines (stream_text chunks))
  | _ => false
  end.

(** *** The messages of a turn *)

(** Nothing but assistant messages at the end has been added. *)
Definition messages_grow (before after : list Message.t) : Prop :=
  ∃ more, after = before ++ more ∧ Forall (λ m, Message.role m = "assistant") more.

(** *** The answer of a response

    A reading of the stream by which the statements name the answer a
    turn stores; it is compared with the [assistantReply] that
    [sendMessage] ends with. *)

(** The lines the frame loop gets to: those before the first frame
    whose event has no [type] to read, where the TypeError ends the
    loop. *)
Fixpoint handled `{Host} (lines : list string) : list string :=
  match lines with
  | [] => []
  | line :: rest =>
      match frame_event line with
      | Some event => if get event "type" is Some _ then line :: handled rest else []
      | None => line :: handled rest
      end
  end.

(** [event.content || ""] of the last [message] frame among the lines,
    and [fallback] if there is none. *)
Definition last_reply `{Host} (fallback : value) (lines : list string) : value :=
  foldl (λ reply line,
           match frame_event line with
           | Some event =>
               if has_type "message" event
               then or_else (prop event "content") (VStr "")
               else reply
           | None => reply
           end)
        fallback lines.

(** The answer of a response: that of the last [message] frame handled,
    the empty string if there is none. *)
Definition answer_of `{Host} (resp : Response) : value :=
  match resp with
  | Body chunks _ => last_reply (VStr "") (handled (complete_lines (stream_text chunks)))
  | _ => VStr ""
  end.

(** *** A turn, step by step

    As in [App.jsx], [sendMessage] runs up to the [await] of [fetch] and
    then from one [await reader.read()] to the next, and other handlers
    can run at each [await].  For a response that ends, [sendMessage]
    above is [begin] followed by [complete]. *)

(** What a call of [sendMessage] holds between its steps. *)
Module Turn.
Record t := {
  text : string;
  locals : Locals;
  buffer : string;
}.
End Turn.

(** From the call to the [await] of [fetch]; [None] when the guard
    returns at once. *)
Definition begin `{Host} (override : option string) (w : World) : option (Turn.t * World) :=
  let text := trim (default (input w) override) in
  if negb (truthy (VStr text)) || streaming w then None
  else
    let w := setTraces (λ _, []) (setInput "" (setRunState "Thinking" (setStreaming true w))) in
    let w := pushUserMessage text w in
    let w := if isCompact w then setRightOpen false (setLeftOpen false w) else w in
    let w := fetch {| Request.message := text; Request.history := history_of w |} w in
    Some ({| Turn.text := text;
             Turn.locals := {| assistantReply := VStr ""; hadError := false |};
             Turn.buffer := "" |}, w).

(** One [reader.read()] that brings a chunk, and the [for] loop over
    the lines it completes: the state after it and what it threw, if
    anything. *)
Definition deliver `{Host} (chunk : string) (s : Turn.t * World)
    : (Turn.t * World) * option string :=
  let '(turn, w) := s in
  let '(lines, lastLine) := pop (split_newline (Turn.buffer turn +:+ chunk)) in
  let '((l, w), thrown) := process_lines lines (Turn.locals turn, w) in
  (({| Turn.text := Turn.text turn; Turn.locals := l;
       Turn.buffer := default "" lastLine |}, w), thrown).

(** The reads of several chunks, up to the first that throws. *)
Fixpoint deliver_all `{Host} (chunks : list string) (s : Turn.t * World)
    : (Turn.t * World) * option string :=
  match chunks with
  | [] => (s, None)
  | chunk :: rest =>
      match deliver chunk s with
      | (s', None) => deliver_all rest s'
      | thrown => thrown
      end
  end.

(** The end of the call: [catch] if something was thrown, then the
    history update and the resets. *)
Definition finish `{Host} (thrown : option string) (s : Turn.t * World) : World :=
  let '(turn, w) := s in
  let '(l, w) :=
    match thrown with
    | Some reason =>
        ({| assistantReply := assistantReply (Turn.locals turn); hadError := true |},
         setRunState "Error"
           (pushAssistantMessage (VStr ("**Connection error:** " +:+ reason))
              (addTraceError (VStr reason) w)))
    | None => (Turn.locals turn, w)
    end in
  let w := if truthy (assistantReply l) then remember (Turn.text turn) (assistantReply l) w
           else w in
  let w := if hadError l then w else setRunState "Idle" w in
  setStreaming false w.

(** The steps of a turn that has begun, for a response that ends. *)
Definition complete `{Host} (resp : Response) (s : Turn.t * World) : World :=
  match resp with
  | FetchRejects reason => finish (Some reason) s
  | NotOk status => finish (Some ("HTTP " +:+ ToString (VNum status))) s
  | NoBody => finish (Some "No response stream from server") s
  | Body chunks ending =>
      match deliver_all chunks s with
      | (s', Some reason) => finish (Some reason) s'
      | (s', None) =>
          finish (match ending with
                  | Closed => None
                  | ReadRejects reason => Some reason
                  end) s'
      end
  end.

(** *** The state without identifiers

    [createId()] and [new Date()] are called inside the updaters handed
    to [setMessages] and [setTraces], which React runs when it renders;
    above they are called where the updater is enqueued.  Which
    identifier and time stamp an entry gets is therefore left out of
    what is stated about a world here. *)
Definition anonymous (w : World) : World :=
  {| history := history w; arrays := arrays w;
     messages := map (λ m, {| Message.id := ""; Message.role := Message.role m;
                              Message.content := Message.content m;
                              Message.timestamp := 0 |}) (messages w);
     traces := map (λ t, {| Trace.id := ""; Trace.type := Trace.type t;
                            Trace.name := Trace.name t; Trace.args := Trace.args t;
                            Trace.resolved := Trace.resolved t;
                            Trace.item_count := Trace.item_count t;
                            Trace.message := Trace.message t |}) (traces w);
     input := input w; streaming := streaming w; runState := runState w;
     leftOpen := leftOpen w; rightOpen := rightOpen w; isCompact := isCompact w;
     hostCalls := 0; fetched := fetched w |}.

End Assets.

(** ** A host for the examples

    Its [JSON.parse] knows the frames the examples use, printed as JSON
    text, and rejects any other text. *)

Module Demo.

Definition quote : string := String (Ascii.ascii_of_nat 34) "".

Definition print_atom (v : value) : string :=
  match v with
  | VStr s => quote +:+ s +:+ quote
  | VNum n => pretty n
  | VBool true => "true"
  | VBool false => "false"
  | _ => "null"
  end.

Fixpoint print_fields (fields : list (string * value)) : string :=
  match fields with
  | [] => ""
  | (k, v) :: rest =>
      quote +:+ k +:+ quote +:+ ":" +:+ print_atom v
      +:+ (match rest with [] => "" | _ => "," +:+ print_fields rest end)
  end.

Definition print (v : value) : string :=
  match v with
  | VObj fields => "{" +:+ print_fields fields +:+ "}"
  | _ => print_atom v
  end.

Definition tool_call (name : string) : value :=
  VObj [("type", VStr "tool_call"); ("name", VStr name)].

Definition tool_result (name : string) (item_count : Z) : value :=
  VObj [("type", VStr "tool_result"); ("name", VStr name); ("item_count", VNum item_count)].

Definition answer (content : string) : value :=
  VObj [("type", VStr "message"); ("content", VStr content)].

Definition failure (message : string) : value :=
  VObj [("type", VStr "error"); ("message", VStr message)].

Definition done : value := VObj [("type", VStr "done")].

Definition events : list value :=
  [ tool_call "query_deals_board"; tool_result "query_deals_board" 5;
    tool_call "query_work_orders_board"; tool_result "query_work_orders_board" 177;
    answer "Pipeline is healthy"; failure "Monday.com timed out"; done ].

Definition parse (text : string) : option value :=
  List.find (λ v, String.eqb (print v) text) events.

Definition to_string (v : value) : string :=
  match v with
  | VUndef => "undefined"
  | VNull => "null"
  | VBool true => "true"
  | VBool false => "false"
  | VNum n => pretty n
  | VStr s => s
  | VArr _ => ""
  | VObj _ => "[object Object]"
  end.

#[export] Instance host : Host := {|
  JSON_parse := parse;
  ToString := to_string;
  Date_now := λ k, (1700000000000 + Z.of_nat k)%Z;
  Math_random := λ _, "0.5";
  TypeError_message := "Cannot read properties of null";
|}.

(** One line of the stream carrying [event], with its line feed. *)
Definition frame (event : value) : string :=
  "data: " +:+ print event +:+ String JS.newline "".

Definition question : string := "How is our pipeline?".

(** Two calls of the same tool, then one result for it. *)
Definition two_calls_one_result : Response :=
  Body [ frame (tool_call "query_deals_board") +:+ frame (tool_call "query_deals_board");
         frame (tool_result "query_deals_board" 5) ] Closed.

(** A [done] frame with a frame behind it, and the same stream cut
    after [done]. *)
Definition call_after_done : Response :=
  Body [ frame done +:+ frame (tool_call "query_deals_board") ] Closed.

Definition only_done : Response := Body [ frame done ] Closed.

(** A complete turn on the deals board: five records come back. *)
Definition deals_turn : Response :=
  Body [ frame (tool_call "query_deals_board");
         frame (tool_result "query_deals_board" 5) +:+ frame (answer "Pipeline is healthy");
         frame done ] Closed.

(** The record store times out: an error, then [done]. *)
Definition failed_turn : Response :=
  Body [ frame (failure "Monday.com timed out") +:+ frame done ] Closed.

(** An [App.jsx] world in the middle of a turn, one call open. *)
Definition open_call : App.Trace.t :=
  {| App.Trace.id := "tc-1"; App.Trace.type := "call";
     App.Trace.name := VStr "query_deals_board"; App.Trace.args := VObj [];
     App.Trace.resolved := false;
     App.Trace.itemCount := VUndef; App.Trace.dataQuality := VUndef |}.

Definition app_midturn : App.Locals * App.World :=
  ({| App.finalContent := VStr ""; App.doneSignal := false |},
   App.setStreaming true (App.setTraces (λ _, [open_call]) App.initial)).

(** The same for [assets/app.jsx]. *)
Definition assets_open_call : Assets.Trace.t :=
  {| Assets.Trace.id := "1-a"; Assets.Trace.type := "tool_call";
     Assets.Trace.name := VStr "query_deals_board"; Assets.Trace.args := VObj [];
     Assets.Trace.resolved := VBool false;
     Assets.Trace.item_count := VUndef; Assets.Trace.message := VUndef |}.

Definition assets_midturn : Assets.Locals * Assets.World :=
  ({| Assets.assistantReply := VStr ""; Assets.hadError := false |},
   Assets.setStreaming true (Assets.setTraces (λ _, [assets_open_call]) (Assets.initial false))).

(** A host that also parses the JSON text [null]. *)
Definition parse_with_null (text : string) : option value :=
  if String.eqb text "null" then Some VNull else parse text.

Definition host_with_null : Host := {|
  JSON_parse := parse_with_null;
  ToString := to_string;
  Date_now := λ k, (1700000000000 + Z.of_nat k)%Z;
  Math_random := λ _, "0.5";
  TypeError_message := "Cannot read properties of null";
|}.

(** The deals turn, delivered in other chunks. *)
Definition deals_turn_rechunked : Response :=
  Body [ "data: "; print (tool_call "query_deals_board") +:+ String JS.newline "da";
         "ta: " +:+ print (tool_result "query_deals_board" 5) +:+ String JS.newline ""
           +:+ frame (answer "Pipeline is healthy") +:+ frame done ] Closed.

(** A call of another tool, a call of the deals tool, and a second one. *)
Definition work_orders_call : App.Trace.t :=
  {| App.Trace.id := "tc-0"; App.Trace.type := "call";
     App.Trace.name := VStr "query_work_orders_board"; App.Trace.args := VObj [];
     App.Trace.resolved := false;
     App.Trace.itemCount := VUndef; App.Trace.dataQuality := VUndef |}.

Definition second_open_call : App.Trace.t :=
  {| App.Trace.id := "tc-2"; App.Trace.type := "call";
     App.Trace.name := VStr "query_deals_board"; App.Trace.args := VObj [];
     App.Trace.resolved := false;
     App.Trace.itemCount := VUndef; App.Trace.dataQuality := VUndef |}.

Definition assets_second_open_call : Assets.Trace.t :=
  {| Assets.Trace.id := "2-b"; Assets.Trace.type := "tool_call";
     Assets.Trace.name := VStr "query_deals_board"; Assets.Trace.args := VObj [];
     Assets.Trace.resolved := VBool false;
     Assets.Trace.item_count := VUndef; Assets.Trace.message := VUndef |}.

(** Events without a name. *)
Definition nameless_call : value := VObj [("type", VStr "tool_call")].
Definition nameless_result : value := VObj [("type", VStr "tool_result")].

(** A second question, put while the answer to the first is awaited,
    and the [toast] state of [assets/app.jsx] as [useState] sets it. *)
Definition second_question : string := "Which deals close this month?".

Definition no_toast : Assets.Toast.t :=
  {| Assets.Toast.open := false; Assets.Toast.message := "";
     Assets.Toast.severity := "success" |}.

End Demo.

(** * Properties *)

(** ** Strings and lines *)

Example trim_example : trim "  How is our pipeline? " = "How is our pipeline?".
Proof. reflexivity. Qed.

Example split_newline_example :
  split_newline ("a" +:+ String newline "bc" +:+ String newline "d") = ["a"; "bc"; "d"]
  ∧ pop ["a"; "bc"; "d"] = (["a"; "bc"], Some "d")
  ∧ pop (split_newline "") = ([], Some "").
Proof. by vm_compute. Qed.

Example slice_last_example :
  slice_last 2 [1; 2; 3] = [2; 3] ∧ slice_last 5 [1; 2; 3] = [1; 2; 3].
Proof. by vm_compute. Qed.

Lemma split_newline_snoc (s : string) :
  ∃ init lst, split_newline s = init ++ [lst].
Proof.
  induction s as [|c r (init & lst & IH)]; simpl.
  - by exists [], "".
  - destruct (Ascii.eqb c newline).
    + exists ("" :: init), lst. by rewrite IH.
    + rewrite IH. destruct init as [|h t]; simpl.
      * by exists [], (String c lst).
      * by exists (String c h :: t), lst.
Qed.

Lemma pop_snoc {A} (init : list A) (lst : A) : pop (init ++ [lst]) = (init, Some lst).
Proof.
  unfold pop. rewrite last_snoc, length_app. simpl.
  replace (length init + 1 - 1) with (length init) by lia.
  by rewrite take_app_length.
Qed.

Lemma split_newline_app (s1 s2 : string) (init : list string) (lst : string) :
  split_newline s1 = init ++ [lst] →
  split_newline (s1 +:+ s2) = init ++ split_newline (lst +:+ s2).
Proof.
  revert init lst. induction s1 as [|c r IH]; intros init lst Hs; simpl in *.
  - destruct init as [|? [|]]; simplify_eq/=. done.
  - destruct (split_newline_snoc r) as (init' & lst' & Hr).
    rewrite Hr in Hs. specialize (IH _ _ Hr).
    destruct (Ascii.eqb c newline) eqn:Hc.
    + change ("" :: init' ++ [lst']) with (("" :: init') ++ [lst']) in Hs.
      apply app_inj_tail in Hs as [<- <-]. simpl. by rewrite IH.
    + destruct init' as [|h t]; simpl in *.
      * destruct init as [|? [|]]; simplify_eq/=. by rewrite IH, Hc.
      * change (String c h :: t ++ [lst']) with ((String c h :: t) ++ [lst']) in Hs.
        apply app_inj_tail in Hs as [<- <-]. rewrite IH. done.
Qed.

Lemma split_newline_last (s : string) (init : list string) (lst : string) :
  split_newline s = init ++ [lst] → split_newline lst = [lst].
Proof.
  revert init lst. induction s as [|c r IH]; intros init lst Hs; simpl in *.
  - destruct init as [|? [|]]; simplify_eq/=. done.
  - destruct (split_newline_snoc r) as (init' & lst' & Hr).
    rewrite Hr in Hs. specialize (IH _ _ Hr).
    destruct (Ascii.eqb c newline) eqn:Hc.
    + change ("" :: init' ++ [lst']) with (("" :: init') ++ [lst']) in Hs.
      by apply app_inj_tail in Hs as [<- <-].
    + destruct init' as [|h t]; simpl in *.
      * destruct init as [|? [|]]; simplify_eq/=. by rewrite Hc, IH.
      * change (String c h :: t ++ [lst']) with ((String c h :: t) ++ [lst']) in Hs.
        by apply app_inj_tail in Hs as [<- <-].
Qed.

(** Reading a text in two pieces finds the same lines as reading it at once. *)
Lemma complete_lines_app (s1 s2 : string) (lines : list string) (rest : option string) :
  pop (split_newline s1) = (lines, rest) →
  complete_lines (s1 +:+ s2) = lines ++ complete_lines (default "" rest +:+ s2)
  ∧ complete_lines (default "" rest) = [].
Proof.
  destruct (split_newline_snoc s1) as (init & lst & Hs).
  rewrite Hs, pop_snoc. intros [= <- <-]. simpl. split.
  - unfold complete_lines. rewrite (split_newline_app _ _ _ _ Hs).
    destruct (split_newline_snoc (lst +:+ s2)) as (init2 & lst2 & ->).
    by rewrite app_assoc, !pop_snoc.
  - unfold complete_lines. rewrite (split_newline_last _ _ _ Hs).
    apply (f_equal fst (pop_snoc [] lst)).
Qed.

Lemma trimStart_blank (s : string) : blank s = true → trimStart s = "".
Proof.
  induction s as [|c r IH]; simpl; [done|].
  destruct (is_space c); simpl; [done|discriminate].
Qed.

Lemma trim_blank (s : string) : blank s = true → trim s = "".
Proof. intros Hs. unfold trim. by rewrite trimStart_blank. Qed.

Lemma strict_eq_VStr (v : value) (s : string) :
  strict_eq v (VStr s) = true ↔ v = VStr s.
Proof.
  destruct v; simpl; try (split; [discriminate|intros [=]]).
  rewrite String.eqb_eq. split; [by intros ->|by intros [= ->]].
Qed.

Lemma trimEnd_empty (s : string) : trimEnd s = "" → blank s = true.
Proof.
  induction s as [|c r IH]; simpl; [done|].
  destruct (trimEnd r); [|discriminate].
  destruct (is_space c); [|discriminate]. intros _. by rewrite IH.
Qed.

Lemma blank_trimStart (s : string) : blank (trimStart s) = true → blank s = true.
Proof.
  induction s as [|c r IH]; simpl; [done|].
  destruct (is_space c) eqn:Hc; simpl; [done|]. by rewrite Hc.
Qed.

(** [!text.trim()] holds of the blank texts and of no other. *)
Lemma not_trim_blank (s : string) : negb (truthy (VStr (trim s))) = blank s.
Proof.
  simpl. rewrite negb_involutive.
  destruct (blank s) eqn:Hs.
  - by rewrite trim_blank.
  - apply String.eqb_neq. intros Ht. unfold trim in Ht.
    apply trimEnd_empty, blank_trimStart in Ht. by rewrite Ht in Hs.
Qed.

Lemma append_empty_r (s : string) : s +:+ "" = s.
Proof.
  induction s as [|x r IH]; [done|].
  change (String x (r +:+ "") = String x r). by rewrite IH.
Qed.

Lemma append_assoc (a b c : string) : (a +:+ b) +:+ c = a +:+ (b +:+ c).
Proof.
  induction a as [|x r IH]; [done|].
  change (String x ((r +:+ b) +:+ c) = String x (r +:+ (b +:+ c))). by rewrite IH.
Qed.

(** ** [App.jsx]: what the frame loop leaves alone *)

Section App_loop.
Context `{Host}.
Implicit Types (s : App.Locals * App.World) (w : App.World).

Lemma App_on_event_session aid event s :
  App.same_session (snd s) (snd (App.on_event aid event s)).
Proof.
  destruct s as [l w]. unfold App.on_event, App.same_session.
  repeat case_match; simpl; done.
Qed.

Lemma App_process_line_session aid line s :
  App.same_session (snd s) (snd (App.process_line aid line s)).
Proof.
  unfold App.process_line. repeat case_match; try done.
  apply App_on_event_session.
Qed.

Lemma App_same_session_trans w1 w2 w3 :
  App.same_session w1 w2 → App.same_session w2 w3 → App.same_session w1 w3.
Proof.
  intros (?&?&?&?&?) (?&?&?&?&?). repeat split; congruence.
Qed.

Lemma App_process_lines_session aid lines s :
  App.same_session (snd s) (snd (App.process_lines aid lines s)).
Proof.
  revert s. induction lines as [|line rest IH]; intros s; simpl; [done|].
  pose proof (App_process_line_session aid line s).
  case_match; [done|]. eapply App_same_session_trans; [done|apply IH].
Qed.

Lemma App_read_loop_done aid chunks ending buffer s :
  App.doneSignal (fst s) = true → App.read_loop aid chunks ending buffer s = (s, None).
Proof. intros Hd. destruct chunks; simpl; by rewrite Hd. Qed.

Lemma App_process_lines_app aid l1 l2 s :
  App.doneSignal (fst s) = false →
  App.process_lines aid (l1 ++ l2) s =
    let s1 := App.process_lines aid l1 s in
    if App.doneSignal (fst s1) then s1 else App.process_lines aid l2 s1.
Proof.
  revert s. induction l1 as [|line rest IH]; intros s Hs; simpl.
  - by rewrite Hs.
  - destruct (App.doneSignal (fst (App.process_line aid line s))) eqn:Hd.
    + by rewrite Hd.
    + by rewrite IH.
Qed.

Lemma App_read_loop_cons aid chunk rest ending buffer s :
  App.read_loop aid (chunk :: rest) ending buffer s =
    if App.doneSignal (fst s) then (s, None)
    else let '(lines, lastLine) := pop (split_newline (buffer +:+ chunk)) in
         App.read_loop aid rest ending (default "" lastLine)
                       (App.process_lines aid lines s).
Proof. done. Qed.

(** The chunks a response is read in do not matter: the loop handles
    the complete lines of the whole text, in order. *)
Lemma App_read_loop_lines aid chunks ending buffer s :
  App.doneSignal (fst s) = false → complete_lines buffer = [] →
  fst (App.read_loop aid chunks ending buffer s) =
    App.process_lines aid (complete_lines (buffer +:+ stream_text chunks)) s.
Proof.
  revert buffer s. induction chunks as [|chunk rest IH]; intros buffer s Hs Hb.
  - simpl. rewrite Hs, append_empty_r, Hb. by destruct ending.
  - rewrite App_read_loop_cons, Hs.
    destruct (pop (split_newline (buffer +:+ chunk))) as [lines lst] eqn:Hp.
    destruct (complete_lines_app _ (stream_text rest) _ _ Hp) as [Hl Hr].
    change (stream_text (chunk :: rest)) with (chunk +:+ stream_text rest).
    rewrite <- append_assoc, Hl, App_process_lines_app by done. simpl.
    destruct (App.doneSignal (fst (App.process_lines aid lines s))) eqn:Hd.
    + by rewrite App_read_loop_done.
    + by apply IH.
Qed.

End App_loop.

(** ** [App.jsx]: the trace entries *)

Section App_traces.
Context `{Host}.
Implicit Types (s : App.Locals * App.World) (w : App.World) (t : App.Trace.t).

Lemma App_evolves_refl t : App.evolves t t.
Proof. by left. Qed.

Lemma App_evolves_trans t1 t2 t3 :
  App.evolves t1 t2 → App.evolves t2 t3 → App.evolves t1 t3.
Proof.
  intros [->|(Hr & ic & dq & ->)] He; [done|].
  destruct He as [->|(Hr' & _)]; [right; eauto|]. simpl in Hr'. discriminate.
Qed.

Lemma App_traces_evolve_refl (tr : list App.Trace.t) : App.traces_evolve tr tr.
Proof. intros i t Hi. exists t. split; [done|apply App_evolves_refl]. Qed.

Lemma App_traces_evolve_trans (tr1 tr2 tr3 : list App.Trace.t) :
  App.traces_evolve tr1 tr2 → App.traces_evolve tr2 tr3 → App.traces_evolve tr1 tr3.
Proof.
  intros H12 H23 i t Hi.
  destruct (H12 i t Hi) as (t2 & Hi2 & He2).
  destruct (H23 i t2 Hi2) as (t3 & Hi3 & He3).
  exists t3. split; [done|]. by eapply App_evolves_trans.
Qed.

Lemma App_traces_evolve_app (tr extra : list App.Trace.t) :
  App.traces_evolve tr (tr ++ extra).
Proof.
  intros i t Hi. exists t. split; [|apply App_evolves_refl].
  by apply lookup_app_l_Some.
Qed.

Lemma App_awaits_unresolved name t : App.awaits name t = true → App.Trace.resolved t = false.
Proof.
  unfold App.awaits. intros [_ Hr]%andb_true_iff. by apply negb_true_iff.
Qed.

Lemma App_patch_evolve name ic dq patched (prev : list App.Trace.t) :
  App.traces_evolve prev (App.patch name ic dq patched prev).
Proof.
  revert patched. induction prev as [|t rest IH]; intros patched i x Hi; [done|].
  simpl. destruct (negb patched && App.awaits name t) eqn:Hc.
  - destruct i as [|i]; simpl in *.
    + simplify_eq. eexists. split; [done|]. right.
      apply andb_true_iff in Hc as [_ Hc]. split; [by eapply App_awaits_unresolved|eauto].
    + by apply IH.
  - destruct i as [|i]; simpl in *.
    + simplify_eq. eexists. split; [done|apply App_evolves_refl].
    + by apply IH.
Qed.

Lemma App_patch_patched name ic dq (prev : list App.Trace.t) :
  App.patch name ic dq true prev = prev.
Proof. induction prev as [|t rest IH]; simpl; [done|by rewrite IH]. Qed.

(** The [map] of the [tool_result] case resolves the first entry that
    awaits the name, and that one only. *)
Lemma App_patch_first name ic dq (before after : list App.Trace.t) t :
  Forall (λ x, App.awaits name x = false) before → App.awaits name t = true →
  App.patch name ic dq false (before ++ t :: after) =
    before ++ App.resolve ic dq t :: after.
Proof.
  intros Hb Ht. induction Hb as [|x before Hx _ IH]; simpl.
  - by rewrite Ht, App_patch_patched.
  - by rewrite Hx, IH.
Qed.

Lemma App_patch_none name ic dq (prev : list App.Trace.t) :
  Forall (λ x, App.awaits name x = false) prev →
  App.patch name ic dq false prev = prev.
Proof.
  intros Hb. induction Hb as [|x prev Hx _ IH]; simpl; [done|]. by rewrite Hx, IH.
Qed.

Lemma App_on_event_tool_result aid event l w :
  App.has_type "tool_result" event = true →
  App.on_event aid event (l, w) =
    (l, App.setTraces (App.patch (App.prop event "name") (App.prop event "item_count")
                                 (App.prop event "data_quality") false) w).
Proof.
  unfold App.has_type, App.on_event. destruct (get event "type") as [ty|]; [|done].
  intros ->%strict_eq_VStr. done.
Qed.

(** X3.  In [App.jsx] a [tool_result] resolves the oldest entry that
    awaits its name, and no other. *)
Lemma App_tool_result_resolves_oldest aid event l w before t after :
  App.has_type "tool_result" event = true →
  App.traces w = before ++ t :: after →
  Forall (λ x, App.awaits (App.prop event "name") x = false) before →
  App.awaits (App.prop event "name") t = true →
  App.traces (snd (App.on_event aid event (l, w))) =
    before ++ App.resolve (App.prop event "item_count") (App.prop event "data_quality") t
           :: after.
Proof.
  intros Hty Htr Hb Ht. rewrite App_on_event_tool_result by done. simpl.
  rewrite Htr. by apply App_patch_first.
Qed.

Lemma App_on_event_traces aid event s :
  App.traces_evolve (App.traces (snd s)) (App.traces (snd (App.on_event aid event s))).
Proof.
  destruct s as [l w]. unfold App.on_event.
  repeat case_match; simpl;
    auto using App_traces_evolve_refl, App_traces_evolve_app, App_patch_evolve.
Qed.

Lemma App_process_line_traces aid line s :
  App.traces_evolve (App.traces (snd s)) (App.traces (snd (App.process_line aid line s))).
Proof.
  unfold App.process_line.
  repeat case_match; auto using App_traces_evolve_refl, App_on_event_traces.
Qed.

Lemma App_process_lines_traces aid lines s :
  App.traces_evolve (App.traces (snd s)) (App.traces (snd (App.process_lines aid lines s))).
Proof.
  revert s. induction lines as [|line rest IH]; intros s; simpl.
  - apply App_traces_evolve_refl.
  - pose proof (App_process_line_traces aid line s).
    case_match; [done|]. eapply App_traces_evolve_trans; [done|apply IH].
Qed.

Lemma App_read_loop_traces aid chunks ending buffer s :
  App.traces_evolve (App.traces (snd s))
    (App.traces (snd (fst (App.read_loop aid chunks ending buffer s)))).
Proof.
  revert buffer s. induction chunks as [|chunk rest IH]; intros buffer s.
  - simpl. repeat case_match; apply App_traces_evolve_refl.
  - rewrite App_read_loop_cons. case_match; [apply App_traces_evolve_refl|].
    case_match. eapply App_traces_evolve_trans; [|apply IH].
    apply App_process_lines_traces.
Qed.

End App_traces.

(** ** [assets/app.jsx]: the frame loop *)

Section Assets_loop.
Context `{Host}.
Implicit Types (s : Assets.Locals * Assets.World) (w : Assets.World) (t : Assets.Trace.t).

Lemma Assets_same_session_trans w1 w2 w3 :
  Assets.same_session w1 w2 → Assets.same_session w2 w3 → Assets.same_session w1 w3.
Proof.
  intros (?&?&?&?&?) (?&?&?&?&?). repeat split; congruence.
Qed.

Lemma Assets_on_event_session ty event s :
  Assets.same_session (snd s) (snd (Assets.on_event ty event s)).
Proof.
  destruct s as [l w]. unfold Assets.on_event, Assets.same_session, Assets.addTraceResult.
  repeat case_match; simpl; done.
Qed.

Lemma Assets_process_line_session line s :
  Assets.same_session (snd s) (snd (fst (Assets.process_line line s))).
Proof.
  unfold Assets.process_line. repeat case_match; try done.
  apply Assets_on_event_session.
Qed.

Lemma Assets_process_lines_session lines s :
  Assets.same_session (snd s) (snd (fst (Assets.process_lines lines s))).
Proof.
  revert s. induction lines as [|line rest IH]; intros s; simpl; [done|].
  pose proof (Assets_process_line_session line s) as Hl.
  destruct (Assets.process_line line s) as [s' [thrown|]]; [done|].
  eapply Assets_same_session_trans; [done|apply IH].
Qed.

Lemma Assets_process_lines_app l1 l2 s :
  Assets.process_lines (l1 ++ l2) s =
    match Assets.process_lines l1 s with
    | (s1, None) => Assets.process_lines l2 s1
    | thrown => thrown
    end.
Proof.
  revert s. induction l1 as [|line rest IH]; intros s; simpl; [done|].
  destruct (Assets.process_line line s) as [s' [thrown|]]; [done|]. apply IH.
Qed.

Lemma Assets_read_loop_cons chunk rest ending buffer s :
  Assets.read_loop (chunk :: rest) ending buffer s =
    let '(lines, lastLine) := pop (split_newline (buffer +:+ chunk)) in
    match Assets.process_lines lines s with
    | (s', None) => Assets.read_loop rest ending (default "" lastLine) s'
    | thrown => thrown
    end.
Proof. done. Qed.

(** The chunks a response is read in do not matter: the loop handles
    the complete lines of the whole text, in order, until one throws. *)
Lemma Assets_read_loop_lines chunks ending buffer s :
  complete_lines buffer = [] →
  Assets.read_loop chunks ending buffer s =
    match Assets.process_lines (complete_lines (buffer +:+ stream_text chunks)) s with
    | (s', None) =>
        (s', match ending with Closed => None | ReadRejects reason => Some reason end)
    | thrown => thrown
    end.
Proof.
  revert buffer s. induction chunks as [|chunk rest IH]; intros buffer s Hb.
  - simpl. rewrite append_empty_r, Hb. by destruct ending.
  - rewrite Assets_read_loop_cons.
    destruct (pop (split_newline (buffer +:+ chunk))) as [lines lst] eqn:Hp.
    destruct (complete_lines_app _ (stream_text rest) _ _ Hp) as [Hl Hr].
    change (stream_text (chunk :: rest)) with (chunk +:+ stream_text rest).
    rewrite <- append_assoc, Hl, Assets_process_lines_app.
    destruct (Assets.process_lines lines s) as [s' [thrown|]]; [done|]. by apply IH.
Qed.

(** *** The trace entries *)

Lemma Assets_evolves_refl t : Assets.evolves t t.
Proof. by left. Qed.

Lemma Assets_evolves_trans t1 t2 t3 :
  Assets.evolves t1 t2 → Assets.evolves t2 t3 → Assets.evolves t1 t3.
Proof.
  intros [->|(Hty & Hr & ic & ->)] He; [done|].
  destruct He as [->|(_ & Hr' & _)]; [right; eauto|]. simpl in Hr'. discriminate.
Qed.

Lemma Assets_traces_evolve_refl (tr : list Assets.Trace.t) : Assets.traces_evolve tr tr.
Proof. intros i t Hi. exists t. split; [done|apply Assets_evolves_refl]. Qed.

Lemma Assets_traces_evolve_trans (tr1 tr2 tr3 : list Assets.Trace.t) :
  Assets.traces_evolve tr1 tr2 → Assets.traces_evolve tr2 tr3 →
  Assets.traces_evolve tr1 tr3.
Proof.
  intros H12 H23 i t Hi.
  destruct (H12 i t Hi) as (t2 & Hi2 & He2).
  destruct (H23 i t2 Hi2) as (t3 & Hi3 & He3).
  exists t3. split; [done|]. by eapply Assets_evolves_trans.
Qed.

Lemma Assets_traces_evolve_app (tr extra : list Assets.Trace.t) :
  Assets.traces_evolve tr (tr ++ extra).
Proof.
  intros i t Hi. exists t. split; [|apply Assets_evolves_refl].
  by apply lookup_app_l_Some.
Qed.

Lemma Assets_awaits_open name t :
  Assets.awaits name t = true →
  Assets.Trace.type t = "tool_call" ∧ truthy (Assets.Trace.resolved t) = false.
Proof.
  unfold Assets.awaits. intros [[Hty Hr]%andb_true_iff _]%andb_true_iff.
  split; [by apply String.eqb_eq|by apply negb_true_iff].
Qed.

Lemma Assets_findIndex_Some (p : Assets.Trace.t → bool) (a : list Assets.Trace.t) index :
  Assets.findIndex p a = Some index →
  ∃ x, a !! index = Some x ∧ p x = true ∧ ∀ j y, a !! j = Some y → j < index → p y = false.
Proof.
  unfold Assets.findIndex. intros ([i x] & Hf & [= <-])%fmap_Some.
  apply list_find_Some in Hf as (Hi & Hp & Hmin). exists x. split_and!; [done..|].
  intros j y Hj Hlt. specialize (Hmin j y Hj Hlt). by destruct (p y).
Qed.

Lemma Assets_addTraceResult_traces event w :
  Assets.traces_evolve (Assets.traces w) (Assets.traces (Assets.addTraceResult event w)).
Proof.
  unfold Assets.addTraceResult.
  destruct (Assets.findIndex _ _) as [index|] eqn:Hf; simpl;
    [|apply Assets_traces_evolve_app].
  apply Assets_findIndex_Some in Hf as (x & Hx & Hp & _).
  apply reverse_lookup_Some in Hx as [Hx Hlt].
  replace (length (Assets.traces w) - 1 - index) with (length (Assets.traces w) - S index) by lia.
  intros i t Hi. destruct (decide (i = length (Assets.traces w) - S index)) as [->|Hne].
  - rewrite list_lookup_alter_eq, Hx. simpl. eexists. split; [done|].
    simplify_eq. right. destruct (Assets_awaits_open _ _ Hp). eauto.
  - rewrite list_lookup_alter_ne by done. eauto using Assets_evolves_refl.
Qed.

(** X4.  In [assets/app.jsx] a [tool_result] resolves the newest entry
    that awaits its name, and no other. *)
Lemma Assets_tool_result_resolves_newest event w before t after :
  Assets.traces w = before ++ t :: after →
  Assets.awaits (Assets.prop event "name") t = true →
  Forall (λ x, Assets.awaits (Assets.prop event "name") x = false) after →
  Assets.traces (Assets.addTraceResult event w) =
    before ++ Assets.resolve (or_else (Assets.prop event "item_count") (VNum 0)) t :: after.
Proof.
  intros Htr Ht Ha. unfold Assets.addTraceResult.
  assert (Assets.findIndex (Assets.awaits (Assets.prop event "name"))
            (reverse (Assets.traces w)) = Some (length after)) as ->.
  { unfold Assets.findIndex.
    rewrite (proj2 (list_find_Some _ _ (length after) t)); [done|].
    rewrite Htr, reverse_app, reverse_cons, <- app_assoc. split_and!.
    - apply list_lookup_middle. by rewrite length_reverse.
    - done.
    - intros j y Hj Hlt. rewrite lookup_app_l in Hj by (by rewrite length_reverse).
      apply list_elem_of_lookup_2 in Hj. rewrite elem_of_reverse in Hj.
      rewrite Forall_forall in Ha. rewrite (Ha y Hj). done. }
  simpl. rewrite Htr, length_app. simpl.
  replace (length before + S (length after) - 1 - length after)
    with (length before + 0) by lia.
  by rewrite alter_app_r.
Qed.

Lemma Assets_on_event_traces ty event s :
  Assets.traces_evolve (Assets.traces (snd s))
    (Assets.traces (snd (Assets.on_event ty event s))).
Proof.
  destruct s as [l w]. unfold Assets.on_event.
  repeat case_match; simpl;
    auto using Assets_traces_evolve_refl, Assets_traces_evolve_app,
      Assets_addTraceResult_traces.
Qed.

Lemma Assets_process_line_traces line s :
  Assets.traces_evolve (Assets.traces (snd s))
    (Assets.traces (snd (fst (Assets.process_line line s)))).
Proof.
  unfold Assets.process_line.
  repeat case_match; simpl; auto using Assets_traces_evolve_refl, Assets_on_event_traces.
Qed.

Lemma Assets_process_lines_traces lines s :
  Assets.traces_evolve (Assets.traces (snd s))
    (Assets.traces (snd (fst (Assets.process_lines lines s)))).
Proof.
  revert s. induction lines as [|line rest IH]; intros s; simpl.
  - apply Assets_traces_evolve_refl.
  - pose proof (Assets_process_line_traces line s) as Hl.
    destruct (Assets.process_line line s) as [s' [thrown|]]; [done|].
    eapply Assets_traces_evolve_trans; [done|apply IH].
Qed.

Lemma Assets_read_loop_traces chunks ending buffer s :
  Assets.traces_evolve (Assets.traces (snd s))
    (Assets.traces (snd (fst (Assets.read_loop chunks ending buffer s)))).
Proof.
  revert buffer s. induction chunks as [|chunk rest IH]; intros buffer s.
  - simpl. repeat case_match; apply Assets_traces_evolve_refl.
  - rewrite Assets_read_loop_cons. case_match.
    pose proof (Assets_process_lines_traces l s) as Hl.
    destruct (Assets.process_lines l s) as [s' [thrown|]]; [done|].
    eapply Assets_traces_evolve_trans; [done|apply IH].
Qed.

End Assets_loop.

(** ** The store of history arrays *)




Lemma Store_read_new {A} (a : list A) (h : Store.store A) :
  Store.read (h ++ [a]) (length h) = a.
Proof. unfold Store.read. by rewrite list_lookup_middle. Qed.

Lemma Store_read_old {A} (h more : Store.store A) (l : Store.loc) :
  l < length h → Store.read (h ++ more) l = Store.read h l.
Proof. intros Hl. unfold Store.read. by rewrite lookup_app_l. Qed.

Lemma Store_read_second {A} (h : Store.store A) (a b : list A) :
  Store.read (h ++ [a; b]) (S (length h)) = b.
Proof.
  change (h ++ [a; b]) with (h ++ [a] ++ [b]). rewrite app_assoc.
  replace (S (length h)) with (length (h ++ [a])) by (rewrite length_app; simpl; lia).
  apply Store_read_new.
Qed.

Section App_history.
Context `{Host}.
Implicit Types (s : App.Locals * App.World) (w : App.World).

Lemma App_remember_spec msgText reply w :
  let entries := App.history_of w ++ exchange msgText reply in
  App.historyRef (App.remember msgText reply w) = S (length (App.arrays w)) ∧
  App.arrays (App.remember msgText reply w) =
    App.arrays w ++ [entries; slice_last 40 entries].
Proof.
  unfold App.remember, Store.spread_with, Store.slice_last, Store.alloc. simpl.
  rewrite Store_read_new, length_app. simpl. split; [lia|].
  by rewrite <- app_assoc.
Qed.

Lemma App_read_loop_session aid chunks ending buffer s :
  App.same_session (snd s) (snd (fst (App.read_loop aid chunks ending buffer s))).
Proof.
  revert buffer s. induction chunks as [|chunk rest IH]; intros buffer s.
  - simpl. by repeat case_match.
  - rewrite App_read_loop_cons. case_match; [done|]. case_match.
    eapply App_same_session_trans; [|apply IH]. apply App_process_lines_session.
Qed.

Lemma App_try_block_session aid resp s :
  App.same_session (snd s) (snd (fst (App.try_block aid resp s))).
Proof. destruct resp; simpl; try done. apply App_read_loop_session. Qed.

(** A turn either leaves the history reference and the store as they
    are, or allocates the copy and its last forty entries and points the
    reference to the latter. *)
Lemma App_sendMessage_history text resp w :
  let w' := App.sendMessage text resp w in
  (App.historyRef w' = App.historyRef w ∧ App.arrays w' = App.arrays w) ∨
  (∃ reply, let entries := App.history_of w ++ exchange (trim text) reply in
     App.historyRef w' = S (length (App.arrays w)) ∧
     App.arrays w' = App.arrays w ++ [entries; slice_last 40 entries]).
Proof.
  unfold App.sendMessage. case_match; [by left|].
  match goal with |- context [App.try_block ?a resp ?s] =>
    pose proof (App_try_block_session a resp s) as Hs;
    destruct (App.try_block a resp s) as [[l2 w2] thrown] end.
  destruct Hs as (Hr & Ha & _). simpl in Hr, Ha.
  case_match.
  - right. exists (App.finalContent l2).
    match goal with |- context [App.remember ?m ?r ?w0] =>
      destruct (App_remember_spec m r w0) as [Hr' Ha'] end.
    rewrite Hr', Ha'. unfold App.history_of.
    destruct thrown; simpl; rewrite Ha, Hr; done.
  - left. destruct thrown; simpl; done.
Qed.

End App_history.

Section Assets_history.
Context `{Host}.
Implicit Types (s : Assets.Locals * Assets.World) (w : Assets.World).

Lemma Assets_remember_spec text reply w :
  let entries := Assets.history_of w ++ exchange text reply in
  Assets.history (Assets.remember text reply w) = S (length (Assets.arrays w)) ∧
  Assets.arrays (Assets.remember text reply w) =
    Assets.arrays w ++ [entries; slice_last 20 entries].
Proof.
  unfold Assets.remember, Store.spread_with, Store.slice_last, Store.alloc. simpl.
  rewrite Store_read_new, length_app. simpl. split; [lia|].
  by rewrite <- app_assoc.
Qed.

Lemma Assets_remember_from text reply w0 w :
  Assets.history w0 = Assets.history w → Assets.arrays w0 = Assets.arrays w →
  let entries := Assets.history_of w ++ exchange text reply in
  Assets.history (Assets.remember text reply w0) = S (length (Assets.arrays w)) ∧
  Assets.arrays (Assets.remember text reply w0) =
    Assets.arrays w ++ [entries; slice_last 20 entries].
Proof.
  intros Hr Ha. destruct (Assets_remember_spec text reply w0) as [-> ->].
  unfold Assets.history_of. by rewrite Hr, Ha.
Qed.

Lemma Assets_read_loop_session chunks ending buffer s :
  Assets.same_session (snd s) (snd (fst (Assets.read_loop chunks ending buffer s))).
Proof.
  revert buffer s. induction chunks as [|chunk rest IH]; intros buffer s.
  - simpl. by repeat case_match.
  - rewrite Assets_read_loop_cons. case_match.
    pose proof (Assets_process_lines_session l s) as Hl.
    destruct (Assets.process_lines l s) as [s' [thrown|]]; [done|].
    eapply Assets_same_session_trans; [done|apply IH].
Qed.

Lemma Assets_try_block_session resp s :
  Assets.same_session (snd s) (snd (fst (Assets.try_block resp s))).
Proof. destruct resp; simpl; try done. apply Assets_read_loop_session. Qed.

(** A turn either leaves the [history] reference and the store as they
    are, or allocates the copy and its last twenty entries and points
    the reference to the latter. *)
Lemma Assets_sendMessage_history override resp w :
  let w' := Assets.sendMessage override resp w in
  (Assets.history w' = Assets.history w ∧ Assets.arrays w' = Assets.arrays w) ∨
  (∃ reply,
     let entries :=
       Assets.history_of w ++ exchange (trim (default (Assets.input w) override)) reply in
     Assets.history w' = S (length (Assets.arrays w)) ∧
     Assets.arrays w' = Assets.arrays w ++ [entries; slice_last 20 entries]).
Proof.
  unfold Assets.sendMessage. case_match; [by left|].
  match goal with |- context [Assets.try_block resp ?s] =>
    pose proof (Assets_try_block_session resp s) as Hs;
    destruct (Assets.try_block resp s) as [[l2 w2] thrown] end.
  destruct Hs as (Hr & Ha & _). simpl in Hr, Ha.
  assert (Assets.history w2 = Assets.history w ∧ Assets.arrays w2 = Assets.arrays w)
    as [Hr2 Ha2].
  { rewrite Hr, Ha. by destruct (Assets.isCompact w). }
  clear Hr Ha.
  destruct thrown as [reason|]; simpl.
  - case_match; [right|left; by rewrite <- Hr2, <- Ha2].
    eexists. by apply Assets_remember_from.
  - destruct (Assets.hadError l2);
      (case_match; [right|left; by rewrite <- Hr2, <- Ha2]);
      eexists; by apply Assets_remember_from.
Qed.

End Assets_history.

Lemma App_history_of_remember msgText reply (w0 w : App.World) :
  App.historyRef w0 = App.historyRef w → App.arrays w0 = App.arrays w →
  App.history_of (App.remember msgText reply w0)
  = slice_last 40 (App.history_of w ++ exchange msgText reply).
Proof.
  intros Hr Ha. destruct (App_remember_spec msgText reply w0) as [Hr' Ha'].
  unfold App.history_of in *. rewrite Hr', Ha', Store_read_second. by rewrite Hr, Ha.
Qed.

Lemma Assets_history_of_remember text reply (w0 w : Assets.World) :
  Assets.history w0 = Assets.history w → Assets.arrays w0 = Assets.arrays w →
  Assets.history_of (Assets.remember text reply w0)
  = slice_last 20 (Assets.history_of w ++ exchange text reply).
Proof.
  intros Hr Ha. destruct (Assets_remember_spec text reply w0) as [Hr' Ha'].
  unfold Assets.history_of in *. rewrite Hr', Ha', Store_read_second. by rewrite Hr, Ha.
Qed.

(** ** Turns without a final message *)

Section No_message.
Context `{Host}.

Lemma App_process_line_final aid line (s : App.Locals * App.World) :
  App.carries "message" line = false →
  App.finalContent (fst (App.process_line aid line s)) = App.finalContent (fst s).
Proof.
  unfold App.carries, App.frame_event, App.process_line, App.has_type, App.on_event.
  destruct s as [l w]. intros Hc.
  repeat case_match; simplify_eq/=; congruence.
Qed.

Lemma App_process_lines_final aid lines (s : App.Locals * App.World) :
  forallb (λ line, negb (App.carries "message" line)) lines = true →
  App.finalContent (fst (App.process_lines aid lines s)) = App.finalContent (fst s).
Proof.
  revert s. induction lines as [|line rest IH]; intros s; simpl; [done|].
  intros [Hl Hr]%andb_true_iff. apply negb_true_iff in Hl.
  pose proof (App_process_line_final aid line s Hl) as Hf.
  case_match; [done|]. by rewrite IH.
Qed.

Lemma App_try_block_final aid resp (s : App.Locals * App.World) :
  App.doneSignal (fst s) = false → App.no_message resp = true →
  App.finalContent (fst (fst (App.try_block aid resp s))) = App.finalContent (fst s).
Proof.
  intros Hd Hn. destruct resp as [| | |chunks ending]; simpl; try done.
  rewrite App_read_loop_lines by done. by apply App_process_lines_final.
Qed.

Lemma Assets_process_line_reply line (s : Assets.Locals * Assets.World) :
  Assets.carries "message" line = false →
  Assets.assistantReply (fst (fst (Assets.process_line line s)))
    = Assets.assistantReply (fst s).
Proof.
  unfold Assets.carries, Assets.frame_event, Assets.process_line, Assets.has_type,
    Assets.on_event.
  destruct s as [l w]. intros Hc.
  repeat case_match; simplify_eq/=; congruence.
Qed.

Lemma Assets_process_lines_reply lines (s : Assets.Locals * Assets.World) :
  forallb (λ line, negb (Assets.carries "message" line)) lines = true →
  Assets.assistantReply (fst (fst (Assets.process_lines lines s)))
    = Assets.assistantReply (fst s).
Proof.
  revert s. induction lines as [|line rest IH]; intros s; simpl; [done|].
  intros [Hl Hr]%andb_true_iff. apply negb_true_iff in Hl.
  pose proof (Assets_process_line_reply line s Hl) as Hf.
  destruct (Assets.process_line line s) as [s' [thrown|]]; [done|]. by rewrite IH.
Qed.

Lemma Assets_try_block_reply resp (s : Assets.Locals * Assets.World) :
  Assets.no_message resp = true →
  Assets.assistantReply (fst (fst (Assets.try_block resp s)))
    = Assets.assistantReply (fst s).
Proof.
  intros Hn. destruct resp as [| | |chunks ending]; simpl; try done.
  rewrite Assets_read_loop_lines by done.
  pose proof (Assets_process_lines_reply _ s Hn) as Hf.
  by destruct (Assets.process_lines _ s) as [s' [thrown|]].
Qed.

End No_message.

(** ** The [done] marker in [App.jsx] *)

Section App_done.
Context `{Host}.
Implicit Types (s : App.Locals * App.World).

Lemma App_done_line aid line s :
  App.carries "done" line = true →
  App.doneSignal (fst (App.process_line aid line s)) = true
  ∧ snd (App.process_line aid line s) = snd s.
Proof.
  unfold App.carries, App.frame_event, App.process_line, App.has_type, App.on_event.
  destruct s as [l w]. destruct (startsWith line "data: "); [|done]. simpl.
  destruct (JSON_parse _) as [event|]; [|done].
  destruct (get event "type") as [ty|]; [|done].
  by intros ->%strict_eq_VStr.
Qed.

Lemma App_process_lines_done aid lines s :
  existsb (App.carries "done") lines = true →
  App.doneSignal (fst (App.process_lines aid lines s)) = true.
Proof.
  revert s. induction lines as [|line rest IH]; intros s; simpl; [done|].
  intros Hx. destruct (App.doneSignal (fst (App.process_line aid line s))) eqn:Hd; [done|].
  apply orb_true_iff in Hx as [Hl|Hr]; [|by apply IH].
  apply (App_done_line aid line s) in Hl as [Hl _]. congruence.
Qed.

(** Whatever follows a [done] frame among the lines is not looked at. *)
Lemma App_lines_after_done aid lines more s :
  App.doneSignal (fst s) = false →
  existsb (App.carries "done") lines = true →
  App.process_lines aid (lines ++ more) s = App.process_lines aid lines s.
Proof.
  intros Hs Hd. rewrite App_process_lines_app by done. simpl.
  by rewrite App_process_lines_done.
Qed.

Lemma App_read_loop_thrown aid chunks ending buffer s reason :
  snd (App.read_loop aid chunks ending buffer s) = Some reason →
  App.doneSignal (fst (fst (App.read_loop aid chunks ending buffer s))) = false.
Proof.
  revert buffer s. induction chunks as [|chunk rest IH]; intros buffer s.
  - simpl. destruct (App.doneSignal (fst s)) eqn:Hd; [done|]. by destruct ending.
  - rewrite App_read_loop_cons. destruct (App.doneSignal (fst s)) eqn:Hd; [done|].
    case_match. apply IH.
Qed.

Lemma stream_text_app (chunks more : list string) :
  stream_text (chunks ++ more) = stream_text chunks +:+ stream_text more.
Proof.
  induction chunks as [|chunk rest IH]; [done|].
  change (chunk +:+ stream_text (rest ++ more)
          = (chunk +:+ stream_text rest) +:+ stream_text more).
  by rewrite IH, append_assoc.
Qed.

(** X5.  In [App.jsx], once a [done] frame has come in full, nothing
    that the server sends after it, and not the way the stream ends, has
    any effect on the turn. *)
Lemma App_done_is_terminal text chunks more ending ending' w :
  existsb (App.carries "done") (complete_lines (stream_text chunks)) = true →
  App.sendMessage text (Body (chunks ++ more) ending) w
  = App.sendMessage text (Body chunks ending') w.
Proof.
  intros Hd. unfold App.sendMessage. case_match; [done|].
  match goal with |- context [App.try_block ?a (Body chunks ending') ?s] =>
    assert (App.try_block a (Body (chunks ++ more) ending) s
            = App.try_block a (Body chunks ending') s) as ->; [|done];
    set (aid := a); set (s0 := s) end.
  assert (App.doneSignal (fst s0) = false) as Hs by done.
  assert (∀ cs e, fst (App.try_block aid (Body cs e) s0)
                  = App.process_lines aid (complete_lines (stream_text cs)) s0) as Hfst.
  { intros cs e. simpl. by rewrite App_read_loop_lines. }
  assert (∀ cs e, App.doneSignal (fst (fst (App.try_block aid (Body cs e) s0))) = true →
                  snd (App.try_block aid (Body cs e) s0) = None) as Hsnd.
  { intros cs e Hdone. simpl in *.
    destruct (snd (App.read_loop aid cs e "" s0)) as [reason|] eqn:Ht; [|done].
    apply App_read_loop_thrown in Ht. congruence. }
  assert (fst (App.try_block aid (Body (chunks ++ more) ending) s0)
          = fst (App.try_block aid (Body chunks ending') s0)) as Heq.
  { rewrite !Hfst, stream_text_app.
    destruct (pop (split_newline (stream_text chunks))) as [lines rest] eqn:Hp.
    destruct (complete_lines_app _ (stream_text more) _ _ Hp) as [-> _].
    assert (complete_lines (stream_text chunks) = lines) as Hl
      by (unfold complete_lines; by rewrite Hp).
    rewrite Hl in *. by apply App_lines_after_done. }
  apply injective_projections; [done|].
  rewrite !Hsnd; [done|..].
  - rewrite Hfst. by apply App_process_lines_done.
  - rewrite Heq, Hfst. by apply App_process_lines_done.
Qed.

End App_done.

(** ** Two turns, run

    A turn on the deals board, then one in which the record store times
    out. *)

Example App_deals_turn :
  let w := App.sendMessage (H := Demo.host) Demo.question Demo.deals_turn App.initial in
  App.history_of w = exchange Demo.question (VStr "Pipeline is healthy")
  ∧ App.counts_reported w = [(VStr "query_deals_board", VNum 5)]
  ∧ map App.Message.content (App.messages w)
    = [VStr Demo.question; VStr "Pipeline is healthy"]
  ∧ App.streaming w = false
  ∧ App.fetched w = [{| Request.message := Demo.question; Request.history := [] |}].
Proof. by vm_compute. Qed.

Example App_failed_turn :
  let w := App.sendMessage (H := Demo.host) Demo.question Demo.failed_turn App.initial in
  App.history_of w = []
  ∧ map (λ m, (App.Message.content m, App.Message.error m)) (App.messages w)
    = [(VStr Demo.question, VUndef); (VStr "**Error:** Monday.com timed out", VBool true)].
Proof. by vm_compute. Qed.

Example Assets_failed_turn :
  let w := Assets.sendMessage (H := Demo.host) None Demo.failed_turn
             (Assets.setInput Demo.question (Assets.initial true)) in
  Assets.history_of w = []
  ∧ Assets.runState w = "Error"
  ∧ map Assets.Trace.type (Assets.traces w) = ["error"]
  ∧ map Assets.Message.content (Assets.messages w)
    = [VStr Demo.question; VStr "**Error:** Monday.com timed out"].
Proof. by vm_compute. Qed.

Example answers :
  App.answer_of (H := Demo.host) Demo.deals_turn = VStr "Pipeline is healthy"
  ∧ Assets.answer_of (H := Demo.host) Demo.deals_turn = VStr "Pipeline is healthy"
  ∧ App.answer_of (H := Demo.host) Demo.failed_turn = VStr ""
  ∧ App.answer_of (H := Demo.host)
      (Body [Demo.frame Demo.done; Demo.frame (Demo.answer "Pipeline is healthy")] Closed)
    = VStr ""
  ∧ Assets.answer_of (H := Demo.host)
      (Body [Demo.frame Demo.done; Demo.frame (Demo.answer "Pipeline is healthy")] Closed)
    = VStr "Pipeline is healthy".
Proof. by vm_compute. Qed.

(** ** The guard *)

Lemma App_accepted_guard text (w : App.World) :
  App.accepted text w = true →
  negb (truthy (VStr (trim text))) || App.streaming w = false.
Proof.
  unfold App.accepted. intros [Ht Hs]%andb_true_iff. apply negb_true_iff in Ht, Hs.
  by rewrite not_trim_blank, Ht, Hs.
Qed.

Lemma Assets_accepted_guard override (w : Assets.World) :
  Assets.accepted override w = true →
  negb (truthy (VStr (trim (default (Assets.input w) override)))) || Assets.streaming w
  = false.
Proof.
  unfold Assets.accepted. intros [Ht Hs]%andb_true_iff. apply negb_true_iff in Ht, Hs.
  by rewrite not_trim_blank, Ht, Hs.
Qed.

(** ** How the read loop is left *)

Lemma App_read_loop_thrown_eq `{Host} aid chunks ending buffer
    (s : App.Locals * App.World) :
  snd (App.read_loop aid chunks ending buffer s) =
    if App.doneSignal (fst (fst (App.read_loop aid chunks ending buffer s))) then None
    else match ending with Closed => None | ReadRejects reason => Some reason end.
Proof.
  revert buffer s. induction chunks as [|chunk rest IH]; intros buffer s.
  - simpl. destruct (App.doneSignal (fst s)) eqn:Hd; simpl; [by rewrite Hd|].
    destruct ending; simpl; by rewrite Hd.
  - rewrite App_read_loop_cons. destruct (App.doneSignal (fst s)) eqn:Hd.
    + simpl. by rewrite Hd.
    + destruct (pop (split_newline (buffer +:+ chunk))) as [lines lst]. apply IH.
Qed.

(** ** A turn, step by step *)

Section Steps.
Context `{Host}.

Lemma App_deliver_done chunk (s : App.Turn.t * App.World) :
  App.doneSignal (App.Turn.locals (fst s)) = true → App.deliver chunk s = s.
Proof. destruct s as [turn w]. simpl. by intros ->. Qed.

Lemma App_deliver_all_done chunks (s : App.Turn.t * App.World) :
  App.doneSignal (App.Turn.locals (fst s)) = true →
  foldl (λ s chunk, App.deliver chunk s) s chunks = s.
Proof.
  intros Hd. induction chunks as [|chunk rest IH]; simpl; [done|].
  by rewrite App_deliver_done.
Qed.

(** The read loop is the sequence of its reads. *)
Lemma App_read_loop_steps chunks ending (turn : App.Turn.t) (w : App.World) :
  App.read_loop (App.Turn.assistantId turn) chunks ending (App.Turn.buffer turn)
                (App.Turn.locals turn, w)
  = let s' := foldl (λ s chunk, App.deliver chunk s) (turn, w) chunks in
    ((App.Turn.locals (fst s'), snd s'), App.leaves ending s').
Proof.
  revert turn w. induction chunks as [|chunk rest IH]; intros turn w.
  - unfold App.leaves. simpl. by destruct (App.doneSignal _), ending.
  - rewrite App_read_loop_cons. cbn [fst foldl].
    destruct (App.doneSignal (App.Turn.locals turn)) eqn:Hd.
    + rewrite App_deliver_done, App_deliver_all_done by done.
      unfold App.leaves. simpl. by rewrite Hd.
    + destruct (pop (split_newline (App.Turn.buffer turn +:+ chunk))) as [lines lst] eqn:Hpop.
      destruct (App.process_lines (App.Turn.assistantId turn) lines (App.Turn.locals turn, w))
        as [l w'] eqn:Hp.
      assert (App.deliver chunk (turn, w)
              = ({| App.Turn.msgText := App.Turn.msgText turn;
                    App.Turn.assistantId := App.Turn.assistantId turn;
                    App.Turn.locals := l; App.Turn.buffer := default "" lst |}, w')) as ->.
      { unfold App.deliver. by rewrite Hd, Hpop, Hp. }
      apply (IH {| App.Turn.msgText := App.Turn.msgText turn;
                   App.Turn.assistantId := App.Turn.assistantId turn;
                   App.Turn.locals := l; App.Turn.buffer := default "" lst |} w').
Qed.

Lemma App_deliver_session chunk (s : App.Turn.t * App.World) :
  App.same_session (snd s) (snd (App.deliver chunk s))
  ∧ App.Turn.msgText (fst (App.deliver chunk s)) = App.Turn.msgText (fst s)
  ∧ App.Turn.assistantId (fst (App.deliver chunk s)) = App.Turn.assistantId (fst s).
Proof.
  destruct s as [turn w]. unfold App.deliver.
  destruct (App.doneSignal _); [done|].
  destruct (pop _) as [lines lst].
  pose proof (App_process_lines_session (App.Turn.assistantId turn) lines
                (App.Turn.locals turn, w)) as Hs.
  by destruct (App.process_lines _ lines _) as [l w'].
Qed.

Lemma App_deliver_all_session chunks (s : App.Turn.t * App.World) :
  let s' := foldl (λ s chunk, App.deliver chunk s) s chunks in
  App.same_session (snd s) (snd s')
  ∧ App.Turn.msgText (fst s') = App.Turn.msgText (fst s)
  ∧ App.Turn.assistantId (fst s') = App.Turn.assistantId (fst s).
Proof.
  revert s. induction chunks as [|chunk rest IH]; intros s; simpl; [done|].
  destruct (IH (App.deliver chunk s)) as (Hs & -> & ->).
  destruct (App_deliver_session chunk s) as (Hs' & -> & ->).
  split; [|done]. by eapply App_same_session_trans.
Qed.

(** [sendMessage], for a response that ends, is the sequence of its
    steps. *)
Lemma App_sendMessage_steps text resp (w : App.World) :
  App.sendMessage text resp w
  = match App.begin text w with
    | Some s => App.complete resp s
    | None => w
    end.
Proof.
  unfold App.sendMessage, App.begin. case_match; [done|].
  destruct resp as [reason|status| |chunks ending]; try done.
  unfold App.complete, App.try_block.
  match goal with |- context [foldl _ (?t, ?w1) chunks] =>
    pose proof (App_read_loop_steps chunks ending t w1) as Hs end.
  match goal with |- context [foldl ?f (?t, ?w1) chunks] =>
    pose proof (App_deliver_all_session chunks (t, w1)) as (_ & Hm & Ha) end.
  cbn [App.Turn.assistantId App.Turn.buffer App.Turn.locals App.Turn.msgText fst] in Hs, Hm, Ha.
  rewrite Hs. cbn zeta in *.
  destruct (foldl _ _ chunks) as [turn' w']. unfold App.finish, App.leaves.
  cbn [fst snd] in *. by rewrite Hm, Ha.
Qed.

Lemma App_begin_accepted text (w : App.World) :
  App.accepted text w = true ↔ is_Some (App.begin text w).
Proof.
  unfold App.accepted, App.begin. rewrite not_trim_blank.
  destruct (blank text), (App.streaming w); simpl; split;
    first [done | by intros [? [=]] | by eexists].
Qed.

(** A turn begins with the flag set, an empty trace list, and one more
    request on its way. *)
Lemma App_begin_spec text (w : App.World) turn w' :
  App.begin text w = Some (turn, w') →
  App.streaming w' = true ∧ App.traces w' = []
  ∧ App.fetched w' = App.fetched w
        ++ [{| Request.message := trim text; Request.history := App.history_of w |}]
  ∧ App.Turn.msgText turn = trim text
  ∧ App.Turn.locals turn = {| App.finalContent := VStr ""; App.doneSignal := false |}
  ∧ App.Turn.buffer turn = "".
Proof. unfold App.begin. case_match; [done|]. by intros [= <- <-]. Qed.

(** While a turn is running the [streaming] flag stays as [begin] set
    it, whatever is delivered and however often the conversation is
    cleared. *)
Lemma App_during_streaming happenings (s : App.Turn.t * App.World) :
  App.streaming (snd (App.during happenings s)) = App.streaming (snd s).
Proof.
  revert s. induction happenings as [|h rest IH]; intros s; [done|].
  unfold App.during in *. simpl. rewrite IH. destruct h as [chunk|]; simpl; [|done].
  by destruct (App_deliver_session chunk s) as [(_ & _ & _ & -> & _) _].
Qed.

Lemma Assets_deliver_all_steps chunks ending (turn : Assets.Turn.t) (w : Assets.World) :
  Assets.read_loop chunks ending (Assets.Turn.buffer turn) (Assets.Turn.locals turn, w)
  = match Assets.deliver_all chunks (turn, w) with
    | (s', Some reason) => ((Assets.Turn.locals (fst s'), snd s'), Some reason)
    | (s', None) =>
        ((Assets.Turn.locals (fst s'), snd s'),
         match ending with Closed => None | ReadRejects reason => Some reason end)
    end.
Proof.
  revert turn w. induction chunks as [|chunk rest IH]; intros turn w.
  - simpl. by destruct ending.
  - rewrite Assets_read_loop_cons. cbn [Assets.deliver_all]. unfold Assets.deliver.
    destruct (pop (split_newline (Assets.Turn.buffer turn +:+ chunk))) as [lines lst].
    destruct (Assets.process_lines lines _) as [[l w'] [reason|]]; [done|].
    apply (IH {| Assets.Turn.text := Assets.Turn.text turn; Assets.Turn.locals := l;
                 Assets.Turn.buffer := default "" lst |} w').
Qed.

Lemma Assets_deliver_session chunk (s : Assets.Turn.t * Assets.World) :
  Assets.same_session (snd s) (snd (fst (Assets.deliver chunk s)))
  ∧ Assets.Turn.text (fst (fst (Assets.deliver chunk s))) = Assets.Turn.text (fst s).
Proof.
  destruct s as [turn w]. unfold Assets.deliver.
  destruct (pop _) as [lines lst].
  pose proof (Assets_process_lines_session lines (Assets.Turn.locals turn, w)) as Hs.
  by destruct (Assets.process_lines lines _) as [[l w'] thrown].
Qed.

Lemma Assets_deliver_all_session chunks (s : Assets.Turn.t * Assets.World) :
  Assets.same_session (snd s) (snd (fst (Assets.deliver_all chunks s)))
  ∧ Assets.Turn.text (fst (fst (Assets.deliver_all chunks s))) = Assets.Turn.text (fst s).
Proof.
  revert s. induction chunks as [|chunk rest IH]; intros s; simpl; [done|].
  destruct (Assets_deliver_session chunk s) as [Hs Ht].
  destruct (Assets.deliver chunk s) as [s' [reason|]]; cbn [fst snd] in *; [done|].
  destruct (IH s') as [Hs' Ht']. split; [|congruence].
  by eapply Assets_same_session_trans.
Qed.

Lemma Assets_sendMessage_steps override resp (w : Assets.World) :
  Assets.sendMessage override resp w
  = match Assets.begin override w with
    | Some s => Assets.complete resp s
    | None => w
    end.
Proof.
  unfold Assets.sendMessage, Assets.begin. case_match; [done|].
  destruct resp as [reason|status| |chunks ending]; try done.
  unfold Assets.complete, Assets.try_block.
  match goal with |- context [Assets.deliver_all chunks (?t, ?w1)] =>
    pose proof (Assets_deliver_all_steps chunks ending t w1) as Hs end.
  match goal with |- context [Assets.deliver_all chunks (?t, ?w1)] =>
    pose proof (Assets_deliver_all_session chunks (t, w1)) as [_ Ht] end.
  cbn [Assets.Turn.buffer Assets.Turn.locals Assets.Turn.text fst] in Hs, Ht. rewrite Hs.
  destruct (Assets.deliver_all chunks _) as [[turn' w'] [reason|]];
    unfold Assets.finish; cbn [fst snd] in *; by rewrite Ht.
Qed.

Lemma Assets_begin_accepted override (w : Assets.World) :
  Assets.accepted override w = true ↔ is_Some (Assets.begin override w).
Proof.
  unfold Assets.accepted, Assets.begin. rewrite not_trim_blank.
  destruct (blank _), (Assets.streaming w); simpl; split;
    first [done | by intros [? [=]] | by eexists].
Qed.

Lemma Assets_begin_spec override (w : Assets.World) turn w' :
  Assets.begin override w = Some (turn, w') →
  Assets.streaming w' = true ∧ Assets.traces w' = []
  ∧ Assets.fetched w' = Assets.fetched w
        ++ [{| Request.message := trim (default (Assets.input w) override);
               Request.history := Assets.history_of w |}].
Proof.
  unfold Assets.begin. case_match; [done|]. intros [= <- <-].
  by destruct (Assets.isCompact w).
Qed.

End Steps.

(** ** The answer of a response *)

Section Answer.
Context `{Host}.










End Answer.

(** * The claims *)

(** C1, at the input where [assets/app.jsx] departs from it.  The
    stream brings two calls of [query_deals_board] and then one result
    for that name.  [addTraceResult] of [assets/app.jsx] searches the
    reversed list, so it resolves the second, newest call and leaves the
    first, oldest one open, where the claim has the oldest resolved.
    [App.jsx] resolves the first on the same stream (in general:
    [App_tool_result_resolves_oldest]). *)
Theorem C1_assets_resolves_newest_call :
  map (λ t, (Assets.Trace.resolved t, Assets.Trace.item_count t))
      (Assets.traces (Assets.sendMessage (H := Demo.host) (Some Demo.question)
                        Demo.two_calls_one_result (Assets.initial false)))
    = [(VBool false, VUndef); (VBool true, VNum 5)]
  ∧ map (λ t, (App.Trace.resolved t, App.Trace.itemCount t))
        (App.traces (App.sendMessage (H := Demo.host) Demo.question
                       Demo.two_calls_one_result App.initial))
    = [(true, VNum 5); (false, VUndef)].
Proof. by vm_compute. Qed.

(** C2, at the input where [assets/app.jsx] departs from it.  A
    [tool_call] frame follows the [done] frame: the loop of
    [assets/app.jsx] has no exit on [done] and adds the trace entry,
    so the turn does not end as the one whose stream stops at [done];
    [App.jsx] ends both turns alike (in general:
    [App_done_is_terminal]). *)
Theorem C2_assets_handles_frames_after_done :
  length (Assets.traces (Assets.sendMessage (H := Demo.host) (Some Demo.question)
                           Demo.call_after_done (Assets.initial false))) = 1
  ∧ Assets.traces (Assets.sendMessage (H := Demo.host) (Some Demo.question)
                     Demo.only_done (Assets.initial false)) = []
  ∧ App.sendMessage (H := Demo.host) Demo.question Demo.call_after_done App.initial
    = App.sendMessage (H := Demo.host) Demo.question Demo.only_done App.initial.
Proof. by vm_compute. Qed.

(** C3.  Take any trace entry [t] present at some point of a turn, and
    any further part of the stream, read in any chunks.  Afterwards the
    entry is still at its place, with the [id], [type], [name] and
    [args] it had; it is either untouched, or it was unresolved and has
    made the one transition to resolved that attaches the result's
    count (and, in [App.jsx], data quality); a resolved entry is
    untouched.  This holds in both front ends. *)
Theorem C3_trace_entries_only_resolve `{Host}
    (aid : string) (chunks : list string) (ending : Ending) (buffer : string)
    (sA : App.Locals * App.World) (sB : Assets.Locals * Assets.World)
    (i j : nat) (tA : App.Trace.t) (tB : Assets.Trace.t) :
  App.traces (snd sA) !! i = Some tA →
  Assets.traces (snd sB) !! j = Some tB →
  (∃ tA', App.traces (snd (fst (App.read_loop aid chunks ending buffer sA))) !! i = Some tA'
     ∧ App.Trace.id tA' = App.Trace.id tA ∧ App.Trace.type tA' = App.Trace.type tA
     ∧ App.Trace.name tA' = App.Trace.name tA ∧ App.Trace.args tA' = App.Trace.args tA
     ∧ App.evolves tA tA'
     ∧ (App.Trace.resolved tA = true → tA' = tA))
  ∧
  (∃ tB', Assets.traces (snd (fst (Assets.read_loop chunks ending buffer sB))) !! j = Some tB'
     ∧ Assets.Trace.id tB' = Assets.Trace.id tB ∧ Assets.Trace.type tB' = Assets.Trace.type tB
     ∧ Assets.Trace.name tB' = Assets.Trace.name tB ∧ Assets.Trace.args tB' = Assets.Trace.args tB
     ∧ Assets.evolves tB tB'
     ∧ (truthy (Assets.Trace.resolved tB) = true → tB' = tB)).
Proof.
  intros HA HB. split.
  - destruct (App_read_loop_traces aid chunks ending buffer sA i tA HA) as (t' & Hi & He).
    exists t'. split; [done|].
    destruct He as [->|(Hr & ic & dq & ->)].
    + split_and!; try done. by left.
    + split_and!; try done; [right; eauto|]. intros Hr'. congruence.
  - destruct (Assets_read_loop_traces chunks ending buffer sB j tB HB) as (t' & Hj & He).
    exists t'. split; [done|].
    destruct He as [->|(Hty & Hr & ic & ->)].
    + split_and!; try done. by left.
    + split_and!; try done; [right; eauto|]. intros Hr'. congruence.
Qed.

Lemma C3_trace_entries_only_resolve_witness :
  (∃ tA', App.traces (snd (fst (App.read_loop (H := Demo.host) "a-1"
             [Demo.frame (Demo.tool_result "query_deals_board" 5)] Closed ""
             Demo.app_midturn))) !! 0 = Some tA'
     ∧ App.Trace.id tA' = App.Trace.id Demo.open_call
     ∧ App.Trace.type tA' = App.Trace.type Demo.open_call
     ∧ App.Trace.name tA' = App.Trace.name Demo.open_call
     ∧ App.Trace.args tA' = App.Trace.args Demo.open_call
     ∧ App.evolves Demo.open_call tA'
     ∧ (App.Trace.resolved Demo.open_call = true → tA' = Demo.open_call))
  ∧
  (∃ tB', Assets.traces (snd (fst (Assets.read_loop (H := Demo.host)
             [Demo.frame (Demo.tool_result "query_deals_board" 5)] Closed ""
             Demo.assets_midturn))) !! 0 = Some tB'
     ∧ Assets.Trace.id tB' = Assets.Trace.id Demo.assets_open_call
     ∧ Assets.Trace.type tB' = Assets.Trace.type Demo.assets_open_call
     ∧ Assets.Trace.name tB' = Assets.Trace.name Demo.assets_open_call
     ∧ Assets.Trace.args tB' = Assets.Trace.args Demo.assets_open_call
     ∧ Assets.evolves Demo.assets_open_call tB'
     ∧ (truthy (Assets.Trace.resolved Demo.assets_open_call) = true
        → tB' = Demo.assets_open_call)).
Proof.
  apply (C3_trace_entries_only_resolve (H := Demo.host) "a-1"
           [Demo.frame (Demo.tool_result "query_deals_board" 5)] Closed ""
           Demo.app_midturn Demo.assets_midturn 0 0
           Demo.open_call Demo.assets_open_call); reflexivity.
Defined.

Lemma App_sendMessage_history_of `{Host} text resp w :
  App.history_of (App.sendMessage text resp w) = App.history_of w ∨
  ∃ reply, App.history_of (App.sendMessage text resp w)
           = slice_last 40 (App.history_of w ++ exchange (trim text) reply).
Proof.
  destruct (App_sendMessage_history text resp w) as [[Hr Ha]|(reply & Hr & Ha)].
  - left. unfold App.history_of. by rewrite Hr, Ha.
  - right. exists reply. unfold App.history_of at 1. rewrite Hr, Ha.
    apply Store_read_second.
Qed.

Lemma Assets_sendMessage_history_of `{Host} override resp w :
  Assets.history_of (Assets.sendMessage override resp w) = Assets.history_of w ∨
  ∃ reply, Assets.history_of (Assets.sendMessage override resp w)
           = slice_last 20 (Assets.history_of w
                            ++ exchange (trim (default (Assets.input w) override)) reply).
Proof.
  destruct (Assets_sendMessage_history override resp w) as [[Hr Ha]|(reply & Hr & Ha)].
  - left. unfold Assets.history_of. by rewrite Hr, Ha.
  - right. exists reply. unfold Assets.history_of at 1. rewrite Hr, Ha.
    apply Store_read_second.
Qed.




Lemma App_request_carries_history `{Host} text resp w :
  App.accepted text w = true →
  App.fetched (App.sendMessage text resp w)
  = App.fetched w ++ [{| Request.message := trim text;
                         Request.history := App.history_of w |}].
Proof.
  unfold App.accepted. intros [Ht Hs]%andb_true_iff. apply negb_true_iff in Ht, Hs.
  unfold App.sendMessage. rewrite not_trim_blank, Ht, Hs. simpl.
  match goal with |- context [App.try_block ?a resp ?s] =>
    pose proof (App_try_block_session a resp s) as Hw;
    destruct (App.try_block a resp s) as [[l2 w2] thrown] end.
  destruct Hw as (_ & _ & _ & _ & Hf). simpl in Hf.
  assert (App.fetched w2
          = App.fetched w ++ [{| Request.message := trim text;
                                 Request.history := App.history_of w |}]) as <-
    by (by rewrite Hf).
  by destruct thrown, (truthy (App.finalContent l2)).
Qed.

Lemma Assets_request_carries_history `{Host} override resp w :
  Assets.accepted override w = true →
  Assets.fetched (Assets.sendMessage override resp w)
  = Assets.fetched w ++ [{| Request.message := trim (default (Assets.input w) override);
                            Request.history := Assets.history_of w |}].
Proof.
  unfold Assets.accepted. intros [Ht Hs]%andb_true_iff. apply negb_true_iff in Ht, Hs.
  unfold Assets.sendMessage. rewrite not_trim_blank, Ht, Hs. simpl.
  match goal with |- context [Assets.try_block resp ?s] =>
    pose proof (Assets_try_block_session resp s) as Hw;
    destruct (Assets.try_block resp s) as [[l2 w2] thrown] end.
  destruct Hw as (_ & _ & _ & _ & Hf). simpl in Hf.
  assert (Assets.fetched w2
          = Assets.fetched w ++ [{| Request.message := trim (default (Assets.input w) override);
                                    Request.history := Assets.history_of w |}]) as <-.
  { rewrite Hf. by destruct (Assets.isCompact w). }
  destruct thrown; simpl;
    destruct (truthy (Assets.assistantReply l2)); try done;
    by destruct (Assets.hadError l2).
Qed.

(** C5.  The array that the history reference points to when a turn
    starts, the one serialised into the request, has the same elements
    after the turn, as has every array allocated before; if the turn
    updates the history, the reference points to a newly allocated
    array holding the last entries of the copy with the two new
    entries appended. *)
Theorem C5_history_array_not_mutated `{Host}
    (text : string) (override : option string) (resp : Response)
    (wA : App.World) (wB : Assets.World) :
  App.history_allocated wA → Assets.history_allocated wB →
  let wA' := App.sendMessage text resp wA in
  let wB' := Assets.sendMessage override resp wB in
  (Store.read (App.arrays wA') (App.historyRef wA) = App.history_of wA
   ∧ (∀ l, l < length (App.arrays wA) →
           Store.read (App.arrays wA') l = Store.read (App.arrays wA) l)
   ∧ (App.historyRef wA' = App.historyRef wA ∨
      (length (App.arrays wA) ≤ App.historyRef wA')%nat ∧
      ∃ reply, App.history_of wA'
               = slice_last 40 (App.history_of wA ++ exchange (trim text) reply))
   ∧ App.history_allocated wA')
  ∧
  (Store.read (Assets.arrays wB') (Assets.history wB) = Assets.history_of wB
   ∧ (∀ l, l < length (Assets.arrays wB) →
           Store.read (Assets.arrays wB') l = Store.read (Assets.arrays wB) l)
   ∧ (Assets.history wB' = Assets.history wB ∨
      (length (Assets.arrays wB) ≤ Assets.history wB')%nat ∧
      ∃ reply, Assets.history_of wB'
               = slice_last 20 (Assets.history_of wB
                    ++ exchange (trim (default (Assets.input wB) override)) reply))
   ∧ Assets.history_allocated wB').
Proof.
  unfold App.history_allocated, Assets.history_allocated. intros HA HB. simpl. split.
  - destruct (App_sendMessage_history text resp wA) as [[Hr Ha]|(reply & Hr & Ha)].
    + rewrite Hr, Ha. split_and!; auto.
    + rewrite Hr, Ha. split_and!.
      * by apply Store_read_old.
      * intros l Hl. by apply Store_read_old.
      * right. split; [lia|]. exists reply. unfold App.history_of at 1.
        rewrite Hr, Ha. apply Store_read_second.
      * rewrite length_app. simpl. lia.
  - destruct (Assets_sendMessage_history override resp wB) as [[Hr Ha]|(reply & Hr & Ha)].
    + rewrite Hr, Ha. split_and!; auto.
    + rewrite Hr, Ha. split_and!.
      * by apply Store_read_old.
      * intros l Hl. by apply Store_read_old.
      * right. split; [lia|]. exists reply. unfold Assets.history_of at 1.
        rewrite Hr, Ha. apply Store_read_second.
      * rewrite length_app. simpl. lia.
Qed.

Lemma C5_history_array_not_mutated_witness :
  let wA := App.sendMessage (H := Demo.host) Demo.question Demo.deals_turn App.initial in
  let wB := Assets.sendMessage (H := Demo.host) (Some Demo.question) Demo.deals_turn
              (Assets.initial false) in
  let wA' := App.sendMessage (H := Demo.host) Demo.question Demo.deals_turn wA in
  let wB' := Assets.sendMessage (H := Demo.host) (Some Demo.question) Demo.deals_turn wB in
  (Store.read (App.arrays wA') (App.historyRef wA) = App.history_of wA
   ∧ (∀ l, l < length (App.arrays wA) →
           Store.read (App.arrays wA') l = Store.read (App.arrays wA) l)
   ∧ (App.historyRef wA' = App.historyRef wA ∨
      (length (App.arrays wA) ≤ App.historyRef wA')%nat ∧
      ∃ reply, App.history_of wA'
               = slice_last 40 (App.history_of wA ++ exchange (trim Demo.question) reply))
   ∧ App.history_allocated wA')
  ∧
  (Store.read (Assets.arrays wB') (Assets.history wB) = Assets.history_of wB
   ∧ (∀ l, l < length (Assets.arrays wB) →
           Store.read (Assets.arrays wB') l = Store.read (Assets.arrays wB) l)
   ∧ (Assets.history wB' = Assets.history wB ∨
      (length (Assets.arrays wB) ≤ Assets.history wB')%nat ∧
      ∃ reply, Assets.history_of wB'
               = slice_last 20 (Assets.history_of wB
                    ++ exchange (trim (default (Assets.input wB) (Some Demo.question))) reply))
   ∧ Assets.history_allocated wB').
Proof.
  apply (C5_history_array_not_mutated (H := Demo.host) Demo.question (Some Demo.question)
           Demo.deals_turn).
  - unfold App.history_allocated. vm_compute. lia.
  - unfold Assets.history_allocated. vm_compute. lia.
Defined.

(** C6.  In [assets/app.jsx] two turns run side by side once "New
    conversation" is pressed while a response is awaited:
    [clearConversation] switches [streaming] off and the next
    [sendMessage] begins a second turn.  That turn resets the trace
    list and its [tool_call] frame puts an entry on it; then the
    [tool_call] frame of the first turn's response puts its entry on the
    same list, and the [tool_result] frame of the second turn resolves
    that entry of the first turn, leaving its own open.  In [App.jsx]
    the same presses begin no second turn: [clearConversation] leaves
    the flag on and [sendMessage] returns at its guard. *)
Theorem C6_assets_overlapping_turns_share_traces :
  match Assets.begin (H := Demo.host) (Some Demo.question) (Assets.initial false) with
  | Some (first, w1) =>
      let cleared := fst (Assets.clearConversation (w1, Demo.no_toast)) in
      match Assets.begin (H := Demo.host) (Some Demo.second_question) cleared with
      | Some (second, w2) =>
          let call := Demo.frame (Demo.tool_call "query_deals_board") in
          let result := Demo.frame (Demo.tool_result "query_deals_board" 5) in
          let '(second, w3) := fst (Assets.deliver (H := Demo.host) call (second, w2)) in
          let '(first, w4) := fst (Assets.deliver (H := Demo.host) call (first, w3)) in
          let '(second, w5) := fst (Assets.deliver (H := Demo.host) result (second, w4)) in
          Assets.traces w2 = []
          ∧ ∃ own other,
              Assets.traces w3 = [own]
              ∧ Assets.traces w4 = [own; other]
              ∧ Assets.traces w5 = [own; Assets.resolve (VNum 5) other]
              ∧ truthy (Assets.Trace.resolved own) = false
              ∧ truthy (Assets.Trace.resolved other) = false
      | None => False
      end
  | None => False
  end
  ∧
  match App.begin (H := Demo.host) Demo.question App.initial with
  | Some (first, w1) =>
      App.begin (H := Demo.host) Demo.second_question (App.clearConversation w1) = None
      ∧ App.sendMessage (H := Demo.host) Demo.second_question Demo.deals_turn
          (App.clearConversation w1) = App.clearConversation w1
  | None => False
  end.
Proof.
  split.
  - vm_compute. split; [reflexivity|]. eexists _, _. by split_and!.
  - vm_compute. by split.
Qed.

(** C7, refuted.  In a turn on the deals board whose tool result
    reports five records, the trace panel shows the five and the side
    panel shows 346 for the board. *)
Lemma C7_shown_count_is_not_live :
  ¬ (∀ (H : Host) (text : string) (resp : Response) (w : App.World) (n : Z),
       In (VStr "query_deals_board", VNum n)
          (App.counts_reported (App.sendMessage text resp w)) →
       In ("Deals Pipeline", n) (App.boards_shown (App.sendMessage text resp w))).
Proof.
  intros Hc.
  specialize (Hc Demo.host Demo.question Demo.deals_turn App.initial 5%Z).
  assert (In ("Deals Pipeline", 5%Z) [("Deals Pipeline", 346%Z); ("Work Orders", 177%Z)])
    as Hin by (apply Hc; vm_compute; by left).
  destruct Hin as [[=]|[[=]|[]]].
Qed.

(** C7, amended.  The counts on the board cards of the side panel are
    constants of the front end: after any turn the cards show 346 and
    177 records, whatever the turn's tool results reported. *)
Theorem C7_board_counts_are_constants `{Host}
    (text : string) (override : option string) (resp : Response)
    (wA : App.World) (wB : Assets.World) :
  App.boards_shown (App.sendMessage text resp wA)
    = [("Deals Pipeline", 346%Z); ("Work Orders", 177%Z)]
  ∧ Assets.boards_shown (Assets.sendMessage override resp wB)
    = [("Deals Pipeline", "346 records available");
       ("Work Orders Tracker", "177 records available")].
Proof. done. Qed.

Lemma App_no_message_history `{Host} text resp w :
  App.no_message resp = true →
  App.historyRef (App.sendMessage text resp w) = App.historyRef w
  ∧ App.arrays (App.sendMessage text resp w) = App.arrays w.
Proof.
  intros Hn. unfold App.sendMessage. case_match; [done|].
  match goal with |- context [App.try_block ?a resp ?s] =>
    pose proof (App_try_block_session a resp s) as Hs;
    pose proof (App_try_block_final a resp s eq_refl Hn) as Hf;
    destruct (App.try_block a resp s) as [[l2 w2] thrown] end.
  destruct Hs as (Hr & Ha & _). simpl in Hr, Ha, Hf. rewrite Hf. simpl.
  by destruct thrown.
Qed.

Lemma Assets_no_message_history `{Host} override resp w :
  Assets.no_message resp = true →
  Assets.history (Assets.sendMessage override resp w) = Assets.history w
  ∧ Assets.arrays (Assets.sendMessage override resp w) = Assets.arrays w.
Proof.
  intros Hn. unfold Assets.sendMessage. case_match; [done|].
  match goal with |- context [Assets.try_block resp ?s] =>
    pose proof (Assets_try_block_session resp s) as Hs;
    pose proof (Assets_try_block_reply resp s Hn) as Hf;
    destruct (Assets.try_block resp s) as [[l2 w2] thrown] end.
  destruct Hs as (Hr & Ha & _). simpl in Hr, Ha, Hf.
  assert (Assets.history w2 = Assets.history w ∧ Assets.arrays w2 = Assets.arrays w)
    as [Hr2 Ha2].
  { rewrite Hr, Ha. by destruct (Assets.isCompact w). }
  destruct thrown as [reason|]; simpl; rewrite Hf; simpl.
  - by rewrite <- Hr2, <- Ha2.
  - destruct (Assets.hadError l2); by rewrite <- Hr2, <- Ha2.
Qed.

(** C8.  If no line that the response delivers in full is a [message]
    frame (the request fails, the server answers with an error status
    or without a body, or the stream carries other events only, however
    it ends), the turn leaves the history reference, the store of
    arrays and so the history itself exactly as they were. *)
Theorem C8_history_unchanged_without_message `{Host}
    (text : string) (override : option string) (resp : Response)
    (wA : App.World) (wB : Assets.World) :
  App.no_message resp = true → Assets.no_message resp = true →
  (App.historyRef (App.sendMessage text resp wA) = App.historyRef wA
   ∧ App.arrays (App.sendMessage text resp wA) = App.arrays wA
   ∧ App.history_of (App.sendMessage text resp wA) = App.history_of wA)
  ∧
  (Assets.history (Assets.sendMessage override resp wB) = Assets.history wB
   ∧ Assets.arrays (Assets.sendMessage override resp wB) = Assets.arrays wB
   ∧ Assets.history_of (Assets.sendMessage override resp wB) = Assets.history_of wB).
Proof.
  intros HA HB. split.
  - destruct (App_no_message_history text resp wA HA) as [Hr Ha].
    unfold App.history_of. by rewrite Hr, Ha.
  - destruct (Assets_no_message_history override resp wB HB) as [Hr Ha].
    unfold Assets.history_of. by rewrite Hr, Ha.
Qed.

Lemma C8_history_unchanged_without_message_witness :
  let wA := App.sendMessage (H := Demo.host) Demo.question Demo.deals_turn App.initial in
  let wB := Assets.sendMessage (H := Demo.host) (Some Demo.question) Demo.deals_turn
              (Assets.initial false) in
  let wA' := App.sendMessage (H := Demo.host) "And the work orders?" Demo.failed_turn wA in
  let wB' := Assets.sendMessage (H := Demo.host) (Some "And the work orders?")
               Demo.failed_turn wB in
  (App.historyRef wA' = App.historyRef wA ∧ App.arrays wA' = App.arrays wA
   ∧ App.history_of wA' = App.history_of wA)
  ∧ (Assets.history wB' = Assets.history wB ∧ Assets.arrays wB' = Assets.arrays wB
     ∧ Assets.history_of wB' = Assets.history_of wB).
Proof.
  apply (C8_history_unchanged_without_message (H := Demo.host)); reflexivity.
Defined.

Lemma App_skip_line `{Host} aid line (s : App.Locals * App.World) :
  startsWith line "data: " = false ∨ JSON_parse (slice 6 line) = None →
  App.process_line aid line s = s.
Proof. unfold App.process_line. by intros [->| ->]; [|case_match]. Qed.

Lemma Assets_skip_line `{Host} line (s : Assets.Locals * Assets.World) :
  startsWith line "data: " = false ∨ JSON_parse (trim (slice 6 line)) = None →
  Assets.process_line line s = (s, None).
Proof. unfold Assets.process_line. by intros [->| ->]; [|repeat case_match]. Qed.

(** C9.  A line that does not start with ["data: "], or whose payload
    [JSON.parse] rejects, is skipped: handling it raises nothing and
    leaves the locals and the whole world (messages, traces and history
    among it) as they are, and the lines around it are handled as if it
    were not there.  The payload is the text handed to [JSON.parse]:
    the rest of the line in [App.jsx], the trimmed rest of the line in
    [assets/app.jsx].  In [App.jsx] the loop runs while [doneSignal] is
    unset. *)
Theorem C9_malformed_frames_are_skipped `{Host}
    (aid line : string) (before after : list string)
    (sA : App.Locals * App.World) (sB : Assets.Locals * Assets.World) :
  startsWith line "data: " = false ∨ JSON_parse (slice 6 line) = None →
  startsWith line "data: " = false ∨ JSON_parse (trim (slice 6 line)) = None →
  App.doneSignal (fst sA) = false →
  (App.process_line aid line sA = sA
   ∧ App.process_lines aid (before ++ line :: after) sA
     = App.process_lines aid (before ++ after) sA)
  ∧
  (Assets.process_line line sB = (sB, None)
   ∧ Assets.process_lines (before ++ line :: after) sB
     = Assets.process_lines (before ++ after) sB).
Proof.
  intros HA HB Hd. split; split.
  - by apply App_skip_line.
  - rewrite !App_process_lines_app by done. simpl.
    destruct (App.doneSignal (fst (App.process_lines aid before sA))) eqn:Hb; [done|].
    by rewrite App_skip_line, Hb.
  - by apply Assets_skip_line.
  - rewrite !Assets_process_lines_app.
    destruct (Assets.process_lines before sB) as [s' [thrown|]]; [done|].
    simpl. by rewrite Assets_skip_line.
Qed.

Lemma C9_malformed_frames_are_skipped_witness :
  let line := "data: {oops" in
  let before := [Demo.frame (Demo.tool_call "query_deals_board")] in
  let after := ["data: " +:+ Demo.print (Demo.tool_result "query_deals_board" 5)] in
  (App.process_line (H := Demo.host) "a-1" line Demo.app_midturn = Demo.app_midturn
   ∧ App.process_lines (H := Demo.host) "a-1" (before ++ line :: after) Demo.app_midturn
     = App.process_lines (H := Demo.host) "a-1" (before ++ after) Demo.app_midturn)
  ∧
  (Assets.process_line (H := Demo.host) line Demo.assets_midturn
     = (Demo.assets_midturn, None)
   ∧ Assets.process_lines (H := Demo.host) (before ++ line :: after) Demo.assets_midturn
     = Assets.process_lines (H := Demo.host) (before ++ after) Demo.assets_midturn).
Proof.
  apply (C9_malformed_frames_are_skipped (H := Demo.host)).
  - right. reflexivity.
  - right. reflexivity.
  - reflexivity.
Defined.

(** C10.  In [assets/app.jsx] a call of [sendMessage] while a turn is
    still running is not always without effect.  With the first
    response awaited the call is refused; once "New conversation" has
    been pressed, which switches [streaming] off and stops nothing, the
    same call begins a second turn and issues a second request, and the
    first turn goes on: its answer, when it arrives, is put among the
    messages of the new conversation.  In [App.jsx] the same presses
    issue no second request: [clearConversation] leaves the flag on and
    [sendMessage] returns the world as it was. *)
Theorem C10_assets_sends_while_a_turn_runs :
  match Assets.begin (H := Demo.host) (Some Demo.question) (Assets.initial false) with
  | Some (first, w1) =>
      let cleared := fst (Assets.clearConversation (w1, Demo.no_toast)) in
      Assets.sendMessage (H := Demo.host) (Some Demo.second_question) Demo.deals_turn w1 = w1
      ∧ Assets.fetched w1
        = [ {| Request.message := Demo.question; Request.history := [] |} ]
      ∧ match Assets.begin (H := Demo.host) (Some Demo.second_question) cleared with
        | Some (second, w2) =>
            let answer := Demo.frame (Demo.answer "Pipeline is healthy") in
            let '(first, w3) := fst (Assets.deliver (H := Demo.host) answer (first, w2)) in
            Assets.fetched w2
            = [ {| Request.message := Demo.question; Request.history := [] |};
                {| Request.message := Demo.second_question; Request.history := [] |} ]
            ∧ map (λ m, (Assets.Message.role m, Assets.Message.content m))
                  (Assets.messages w3)
              = [ ("user", VStr Demo.second_question);
                  ("assistant", VStr "Pipeline is healthy") ]
        | None => False
        end
      ∧ length (Assets.fetched
                  (Assets.sendMessage (H := Demo.host) (Some Demo.second_question)
                     Demo.deals_turn cleared)) = 2
  | None => False
  end
  ∧
  match App.begin (H := Demo.host) Demo.question App.initial with
  | Some (first, w1) =>
      App.sendMessage (H := Demo.host) Demo.second_question Demo.deals_turn
        (App.clearConversation w1) = App.clearConversation w1
      ∧ App.fetched (App.clearConversation w1)
        = [ {| Request.message := Demo.question; Request.history := [] |} ]
  | None => False
  end.
Proof.
  split.
  - vm_compute. by split_and!.
  - vm_compute. by split.
Qed.

(** * Further properties of the two front ends *)

(** ** What the read loop makes of the stream *)

Lemma App_try_block_lines `{Host} aid chunks1 chunks2 ending
    (s : App.Locals * App.World) :
  App.doneSignal (fst s) = false →
  complete_lines (stream_text chunks1) = complete_lines (stream_text chunks2) →
  App.try_block aid (Body chunks1 ending) s = App.try_block aid (Body chunks2 ending) s.
Proof.
  intros Hd Hl.
  assert (fst (App.try_block aid (Body chunks1 ending) s)
          = fst (App.try_block aid (Body chunks2 ending) s)) as Hfst.
  { simpl. rewrite !App_read_loop_lines by done.
    change ("" +:+ stream_text chunks1) with (stream_text chunks1).
    change ("" +:+ stream_text chunks2) with (stream_text chunks2). by rewrite Hl. }
  apply injective_projections; [done|].
  simpl in *. by rewrite !App_read_loop_thrown_eq, Hfst.
Qed.

Lemma App_sendMessage_lines `{Host} text chunks1 chunks2 ending (w : App.World) :
  complete_lines (stream_text chunks1) = complete_lines (stream_text chunks2) →
  App.sendMessage text (Body chunks1 ending) w = App.sendMessage text (Body chunks2 ending) w.
Proof.
  intros Hl. unfold App.sendMessage. case_match; [done|].
  match goal with |- context [App.try_block ?a (Body chunks2 ending) ?s] =>
    rewrite (App_try_block_lines a chunks1 chunks2 ending s eq_refl Hl) end.
  done.
Qed.

Lemma Assets_sendMessage_lines `{Host} override chunks1 chunks2 ending (w : Assets.World) :
  complete_lines (stream_text chunks1) = complete_lines (stream_text chunks2) →
  Assets.sendMessage override (Body chunks1 ending) w
  = Assets.sendMessage override (Body chunks2 ending) w.
Proof.
  intros Hl. unfold Assets.sendMessage. case_match; [done|].
  match goal with |- context [Assets.try_block (Body chunks2 ending) ?s] =>
    assert (Assets.try_block (Body chunks1 ending) s
            = Assets.try_block (Body chunks2 ending) s) as ->; [|done] end.
  simpl. rewrite !Assets_read_loop_lines by done.
  change ("" +:+ stream_text chunks1) with (stream_text chunks1).
  change ("" +:+ stream_text chunks2) with (stream_text chunks2). by rewrite Hl.
Qed.

(** X1.  How the body of a response is cut into chunks has no effect
    on a turn: two responses with the same text and the same ending
    leave the same world in [App.jsx], and in [assets/app.jsx] the same
    world apart from the identifiers and time stamps of messages and
    trace entries and the count of calls to the host (React draws them
    when it runs the updaters, which depends on the chunks). *)
Theorem X1_chunking_is_irrelevant `{Host}
    (text : string) (override : option string) (chunks1 chunks2 : list string)
    (ending : Ending) (wA : App.World) (wB : Assets.World) :
  stream_text chunks1 = stream_text chunks2 →
  App.sendMessage text (Body chunks1 ending) wA
    = App.sendMessage text (Body chunks2 ending) wA
  ∧ Assets.anonymous (Assets.sendMessage override (Body chunks1 ending) wB)
    = Assets.anonymous (Assets.sendMessage override (Body chunks2 ending) wB).
Proof.
  intros Ht. split.
  - apply App_sendMessage_lines. by rewrite Ht.
  - f_equal. apply Assets_sendMessage_lines. by rewrite Ht.
Qed.

Lemma X1_chunking_is_irrelevant_witness :
  App.sendMessage (H := Demo.host) Demo.question Demo.deals_turn App.initial
    = App.sendMessage (H := Demo.host) Demo.question Demo.deals_turn_rechunked App.initial
  ∧ Assets.anonymous
      (Assets.sendMessage (H := Demo.host) (Some Demo.question) Demo.deals_turn
         (Assets.initial false))
    = Assets.anonymous
        (Assets.sendMessage (H := Demo.host) (Some Demo.question) Demo.deals_turn_rechunked
           (Assets.initial false)).
Proof.
  apply (X1_chunking_is_irrelevant (H := Demo.host)). reflexivity.
Defined.

Lemma has_newline_app (a b : string) :
  has_newline (a +:+ b) = has_newline a || has_newline b.
Proof.
  induction a as [|c r IH]; [done|].
  change (has_newline (String c (r +:+ b))
          = has_newline (String c r) || has_newline b).
  simpl. by rewrite IH, orb_assoc.
Qed.

Lemma split_newline_single (s s' : string) :
  split_newline s = [s'] → has_newline s = false.
Proof.
  revert s'. induction s as [|c r IH]; intros s'; simpl; [done|].
  destruct (split_newline_snoc r) as (init & lst & Hr). rewrite Hr.
  destruct (Ascii.eqb c newline); simpl.
  - destruct init; discriminate.
  - destruct init as [|h t]; simpl.
    + intros _. apply (IH lst). by rewrite Hr.
    + destruct t; discriminate.
Qed.

Lemma complete_lines_no_newline (s : string) :
  has_newline s = false → complete_lines s = [].
Proof.
  intros Hs. unfold complete_lines. assert (split_newline s = [s]) as ->; [|done].
  induction s as [|c r IH]; simpl in *; [done|].
  apply orb_false_iff in Hs as [-> Hr]. by rewrite IH.
Qed.

(** The text after the last line feed adds no line. *)
Lemma complete_lines_tail (text tail : string) :
  has_newline tail = false → complete_lines (text +:+ tail) = complete_lines text.
Proof.
  intros Ht.
  destruct (split_newline_snoc text) as (init & lst & Hs).
  pose proof (pop_snoc init lst) as Hp. rewrite <- Hs in Hp.
  destruct (complete_lines_app _ tail _ _ Hp) as [-> _]. simpl.
  rewrite complete_lines_no_newline.
  - rewrite app_nil_r. unfold complete_lines. by rewrite Hp.
  - rewrite has_newline_app, Ht, orb_false_r.
    eapply split_newline_single, split_newline_last, Hs.
Qed.

(** X2.  What the server sends after the last line feed is never
    handled: a last frame that is not ended by a line feed is lost, in
    both front ends, however the stream ends. *)
Theorem X2_unfinished_last_line_is_dropped `{Host}
    (text : string) (override : option string) (chunks : list string) (tail : string)
    (ending : Ending) (wA : App.World) (wB : Assets.World) :
  has_newline tail = false →
  App.sendMessage text (Body (chunks ++ [tail]) ending) wA
    = App.sendMessage text (Body chunks ending) wA
  ∧ Assets.sendMessage override (Body (chunks ++ [tail]) ending) wB
    = Assets.sendMessage override (Body chunks ending) wB.
Proof.
  intros Ht.
  assert (complete_lines (stream_text (chunks ++ [tail]))
          = complete_lines (stream_text chunks)) as Hl.
  { rewrite stream_text_app. apply complete_lines_tail.
    change (stream_text [tail]) with (tail +:+ ""). by rewrite append_empty_r. }
  split; [by apply App_sendMessage_lines|by apply Assets_sendMessage_lines].
Qed.

Lemma X2_unfinished_last_line_is_dropped_witness :
  let tail := "data: " +:+ Demo.print (Demo.answer "Pipeline is healthy") in
  App.sendMessage (H := Demo.host) Demo.question
      (Body ([Demo.frame (Demo.tool_call "query_deals_board")] ++ [tail]) Closed) App.initial
    = App.sendMessage (H := Demo.host) Demo.question
        (Body [Demo.frame (Demo.tool_call "query_deals_board")] Closed) App.initial
  ∧ Assets.sendMessage (H := Demo.host) (Some Demo.question)
      (Body ([Demo.frame (Demo.tool_call "query_deals_board")] ++ [tail]) Closed)
      (Assets.initial false)
    = Assets.sendMessage (H := Demo.host) (Some Demo.question)
        (Body [Demo.frame (Demo.tool_call "query_deals_board")] Closed)
        (Assets.initial false).
Proof.
  apply (X2_unfinished_last_line_is_dropped (H := Demo.host)). reflexivity.
Defined.

(** ** Matching results to calls *)

Lemma App_tool_result_resolves_oldest_witness :
  App.traces (snd (App.on_event (H := Demo.host) "a-1"
                     (Demo.tool_result "query_deals_board" 5)
                     (fst Demo.app_midturn,
                      App.setTraces (λ _, [Demo.work_orders_call] ++ Demo.open_call
                                           :: [Demo.second_open_call]) App.initial)))
  = [Demo.work_orders_call]
    ++ App.resolve (App.prop (Demo.tool_result "query_deals_board" 5) "item_count")
                   (App.prop (Demo.tool_result "query_deals_board" 5) "data_quality")
                   Demo.open_call
    :: [Demo.second_open_call].
Proof.
  apply (App_tool_result_resolves_oldest (H := Demo.host)).
  - reflexivity.
  - reflexivity.
  - repeat constructor.
  - reflexivity.
Defined.

Lemma Assets_tool_result_resolves_newest_witness :
  Assets.traces (Assets.addTraceResult (H := Demo.host)
                   (Demo.tool_result "query_deals_board" 5)
                   (Assets.setTraces (λ _, [Demo.assets_open_call]
                                           ++ Demo.assets_second_open_call :: [])
                                     (Assets.initial false)))
  = [Demo.assets_open_call]
    ++ Assets.resolve
         (or_else (Assets.prop (Demo.tool_result "query_deals_board" 5) "item_count") (VNum 0))
         Demo.assets_second_open_call
    :: [].
Proof.
  apply (Assets_tool_result_resolves_newest (H := Demo.host)).
  - reflexivity.
  - reflexivity.
  - constructor.
Defined.

Lemma App_done_is_terminal_witness :
  App.sendMessage (H := Demo.host) Demo.question
      (Body ([Demo.frame (Demo.answer "Pipeline is healthy") +:+ Demo.frame Demo.done]
             ++ [Demo.frame (Demo.failure "Monday.com timed out")])
            (ReadRejects "network error")) App.initial
  = App.sendMessage (H := Demo.host) Demo.question
      (Body [Demo.frame (Demo.answer "Pipeline is healthy") +:+ Demo.frame Demo.done]
            Closed) App.initial.
Proof.
  apply (App_done_is_terminal (H := Demo.host)). reflexivity.
Defined.

Lemma App_setTraces_same (w : App.World) : App.setTraces (λ _, App.traces w) w = w.
Proof. by destruct w. Qed.

Lemma Assets_findIndex_None (p : Assets.Trace.t → bool) (a : list Assets.Trace.t) :
  Forall (λ x, p x = false) a → Assets.findIndex p a = None.
Proof.
  intros Ha. unfold Assets.findIndex.
  rewrite (proj2 (list_find_None _ a)); [done|].
  eapply Forall_impl; [done|]. simpl. intros x Hx. by rewrite Hx.
Qed.

(** X6.  A [tool_result] whose name no unresolved call has: [App.jsx]
    leaves the locals and the whole world as they are; [assets/app.jsx]
    resolves nothing and appends an entry of type [tool_result] that
    carries the event's name and count, defaulting to ["unknown_tool"]
    and 0. *)
Theorem X6_result_without_open_call `{Host}
    (aid : string) (eventA eventB : value) (l : App.Locals)
    (wA : App.World) (wB : Assets.World) :
  App.has_type "tool_result" eventA = true →
  Forall (λ x, App.awaits (App.prop eventA "name") x = false) (App.traces wA) →
  Forall (λ x, Assets.awaits (Assets.prop eventB "name") x = false) (Assets.traces wB) →
  App.on_event aid eventA (l, wA) = (l, wA)
  ∧ ∃ t, Assets.traces (Assets.addTraceResult eventB wB) = Assets.traces wB ++ [t]
         ∧ Assets.Trace.type t = "tool_result"
         ∧ Assets.Trace.name t = or_else (Assets.prop eventB "name") (VStr "unknown_tool")
         ∧ Assets.Trace.item_count t = or_else (Assets.prop eventB "item_count") (VNum 0)
         ∧ Assets.TracePanel.cardKind t = "result".
Proof.
  intros Hty HA HB. split.
  - rewrite App_on_event_tool_result by done.
    f_equal. rewrite <- (App_setTraces_same wA) at 2.
    unfold App.setTraces. by rewrite App_patch_none.
  - unfold Assets.addTraceResult.
    rewrite Assets_findIndex_None by (by apply Forall_reverse).
    eexists. split; [done|]. done.
Qed.

Lemma X6_result_without_open_call_witness :
  App.on_event (H := Demo.host) "a-1" (Demo.tool_result "query_work_orders_board" 177)
    Demo.app_midturn = Demo.app_midturn
  ∧ ∃ t, Assets.traces (Assets.addTraceResult (H := Demo.host)
                          (Demo.tool_result "query_work_orders_board" 177)
                          (snd Demo.assets_midturn))
         = Assets.traces (snd Demo.assets_midturn) ++ [t]
         ∧ Assets.Trace.type t = "tool_result"
         ∧ Assets.Trace.name t
           = or_else (Assets.prop (Demo.tool_result "query_work_orders_board" 177) "name")
                     (VStr "unknown_tool")
         ∧ Assets.Trace.item_count t
           = or_else (Assets.prop (Demo.tool_result "query_work_orders_board" 177) "item_count")
                     (VNum 0)
         ∧ Assets.TracePanel.cardKind t = "result".
Proof.
  apply (X6_result_without_open_call (H := Demo.host) "a-1"
           (Demo.tool_result "query_work_orders_board" 177)
           (Demo.tool_result "query_work_orders_board" 177)
           (fst Demo.app_midturn) (snd Demo.app_midturn) (snd Demo.assets_midturn)).
  - reflexivity.
  - repeat constructor.
  - repeat constructor.
Defined.

Lemma App_on_event_tool_call `{Host} aid event l (w : App.World) :
  App.has_type "tool_call" event = true →
  ∃ t, App.on_event aid event (l, w)
       = (l, App.hostCalled 2 (App.setTraces (λ prev, prev ++ [t]) w))
       ∧ App.Trace.name t = App.prop event "name"
       ∧ App.Trace.type t = "call" ∧ App.Trace.resolved t = false.
Proof.
  unfold App.has_type, App.on_event. destruct (get event "type") as [ty|]; [|done].
  intros ->%strict_eq_VStr. eexists. split; [done|]. done.
Qed.

Lemma Assets_addTraceResult_untouched `{Host} event (w : Assets.World) i t :
  Assets.traces w !! i = Some t →
  Assets.awaits (Assets.prop event "name") t = false →
  Assets.traces (Assets.addTraceResult event w) !! i = Some t.
Proof.
  intros Hi Ht. unfold Assets.addTraceResult.
  destruct (Assets.findIndex _ _) as [index|] eqn:Hf; simpl;
    [|by apply lookup_app_l_Some].
  apply Assets_findIndex_Some in Hf as (x & Hx & Hp & _).
  apply reverse_lookup_Some in Hx as [Hx Hlt].
  rewrite list_lookup_alter_ne; [done|].
  intros <-. replace (length (Assets.traces w) - 1 - index)
    with (length (Assets.traces w) - S index) in Hi by lia. congruence.
Qed.

(** X7.  A call and a result that both lack the [name] key.  In
    [App.jsx] both names are [undefined] and, no older entry awaiting
    that, the result resolves the call.  In [assets/app.jsx] the call is
    entered under the name ["unknown_tool"] while the result is looked
    up under [undefined]: the entry of the call is not the one matched
    and stays unresolved. *)
Theorem X7_nameless_call_and_result `{Host}
    (aid : string) (call result : value) (l : App.Locals)
    (wA : App.World) (wB : Assets.World) :
  App.has_type "tool_call" call = true → App.has_type "tool_result" result = true →
  App.prop call "name" = VUndef → App.prop result "name" = VUndef →
  Forall (λ x, App.awaits VUndef x = false) (App.traces wA) →
  (∃ t, App.traces (snd (App.on_event aid result (App.on_event aid call (l, wA))))
        = App.traces wA ++ [t]
        ∧ App.Trace.name t = VUndef ∧ App.Trace.resolved t = true)
  ∧
  (∃ t, Assets.traces (Assets.addTraceCall call wB) = Assets.traces wB ++ [t]
        ∧ Assets.Trace.name t = VStr "unknown_tool"
        ∧ Assets.Trace.resolved t = VBool false
        ∧ Assets.traces (Assets.addTraceResult result (Assets.addTraceCall call wB))
            !! length (Assets.traces wB) = Some t).
Proof.
  intros Hc Hr Hnc Hnr HA. split.
  - destruct (App_on_event_tool_call aid call l wA Hc) as (t & -> & Hn & Hty & Hres).
    rewrite App_on_event_tool_result by done. simpl. rewrite Hnr.
    rewrite App_patch_first; [|done|].
    + eexists. split; [done|]. simpl. by rewrite Hn, Hnc.
    + unfold App.awaits. by rewrite Hn, Hnc, Hty, Hres.
  - unfold Assets.addTraceCall.
    change (Assets.prop call "name") with (App.prop call "name"). rewrite Hnc.
    eexists. split; [done|]. split_and!; [done..|].
    apply Assets_addTraceResult_untouched.
    + simpl. by apply list_lookup_middle.
    + change (Assets.prop result "name") with (App.prop result "name"). by rewrite Hnr.
Qed.

Lemma X7_nameless_call_and_result_witness :
  (∃ t, App.traces (snd (App.on_event (H := Demo.host) "a-1" Demo.nameless_result
                           (App.on_event (H := Demo.host) "a-1" Demo.nameless_call
                              Demo.app_midturn)))
        = App.traces (snd Demo.app_midturn) ++ [t]
        ∧ App.Trace.name t = VUndef ∧ App.Trace.resolved t = true)
  ∧
  (∃ t, Assets.traces (Assets.addTraceCall (H := Demo.host) Demo.nameless_call
                         (snd Demo.assets_midturn))
        = Assets.traces (snd Demo.assets_midturn) ++ [t]
        ∧ Assets.Trace.name t = VStr "unknown_tool"
        ∧ Assets.Trace.resolved t = VBool false
        ∧ Assets.traces (Assets.addTraceResult (H := Demo.host) Demo.nameless_result
                           (Assets.addTraceCall (H := Demo.host) Demo.nameless_call
                              (snd Demo.assets_midturn)))
            !! length (Assets.traces (snd Demo.assets_midturn)) = Some t).
Proof.
  apply (X7_nameless_call_and_result (H := Demo.host) "a-1" Demo.nameless_call
           Demo.nameless_result (fst Demo.app_midturn) (snd Demo.app_midturn)
           (snd Demo.assets_midturn)).
  - reflexivity.
  - reflexivity.
  - reflexivity.
  - reflexivity.
  - repeat constructor.
Defined.

(** X8.  A frame whose payload is the JSON text [null].  [App.jsx]
    reads [event.type] inside the [try] of the frame and skips the
    frame.  [assets/app.jsx] reads it outside that [try]: the TypeError
    ends the frame loop, no later line is handled, and the turn goes on
    in the [catch] of the request. *)
Theorem X8_null_event `{Host}
    (aid line : string) (rest : list string)
    (sA : App.Locals * App.World) (sB : Assets.Locals * Assets.World) :
  App.frame_event line = Some VNull → Assets.frame_event line = Some VNull →
  App.doneSignal (fst sA) = false →
  App.process_lines aid (line :: rest) sA = App.process_lines aid rest sA
  ∧ Assets.process_lines (line :: rest) sB = (sB, Some TypeError_message).
Proof.
  unfold App.frame_event, Assets.frame_event. intros HA HB Hd. split.
  - assert (App.process_line aid line sA = sA) as Hp.
    { unfold App.process_line. destruct (startsWith line "data: "); [|done].
      cbn [negb]. rewrite HA. by destruct sA. }
    cbn [App.process_lines]. by rewrite Hp, Hd.
  - assert (Assets.process_line line sB = (sB, Some TypeError_message)) as Hp.
    { unfold Assets.process_line. destruct (startsWith line "data: "); [|done].
      cbn [negb] in *. destruct (truthy (VStr (trim (slice 6 line)))); [|done].
      cbn [negb]. by rewrite HB. }
    cbn [Assets.process_lines]. by rewrite Hp.
Qed.

Lemma X8_null_event_witness :
  App.process_lines (H := Demo.host_with_null) "a-1"
      ("data: null" :: [Demo.frame (Demo.tool_result "query_deals_board" 5)])
      Demo.app_midturn
    = App.process_lines (H := Demo.host_with_null) "a-1"
        [Demo.frame (Demo.tool_result "query_deals_board" 5)] Demo.app_midturn
  ∧ Assets.process_lines (H := Demo.host_with_null)
      ("data: null" :: [Demo.frame (Demo.tool_result "query_deals_board" 5)])
      Demo.assets_midturn
    = (Demo.assets_midturn, Some (TypeError_message (Host := Demo.host_with_null))).
Proof.
  apply (X8_null_event (H := Demo.host_with_null)); reflexivity.
Defined.

(** ** How a turn ends *)

Lemma App_settle_not_pending (m : App.Message.t) :
  truthy (App.Message.pending (App.settle m)) = false.
Proof. unfold App.settle. by destruct (truthy (App.Message.pending m)) eqn:Hp. Qed.





(** X11.  A turn that is started issues exactly one request: its body
    has the trimmed text as [message] and, as [history], the entries the
    history held before the turn. *)
Theorem X11_one_request_per_turn `{Host}
    (text : string) (override : option string) (resp : Response)
    (wA : App.World) (wB : Assets.World) :
  App.accepted text wA = true → Assets.accepted override wB = true →
  App.fetched (App.sendMessage text resp wA)
    = App.fetched wA ++ [{| Request.message := trim text;
                            Request.history := App.history_of wA |}]
  ∧ Assets.fetched (Assets.sendMessage override resp wB)
    = Assets.fetched wB
      ++ [{| Request.message := trim (default (Assets.input wB) override);
             Request.history := Assets.history_of wB |}].
Proof.
  intros HA HB. split.
  - by apply App_request_carries_history.
  - by apply Assets_request_carries_history.
Qed.

Lemma X11_one_request_per_turn_witness :
  let wA := App.sendMessage (H := Demo.host) Demo.question Demo.deals_turn App.initial in
  let wB := Assets.sendMessage (H := Demo.host) (Some Demo.question) Demo.deals_turn
              (Assets.initial false) in
  App.fetched (App.sendMessage (H := Demo.host) "  And the work orders? " Demo.failed_turn wA)
    = App.fetched wA ++ [{| Request.message := trim "  And the work orders? ";
                            Request.history := App.history_of wA |}]
  ∧ Assets.fetched (Assets.sendMessage (H := Demo.host) (Some "  And the work orders? ")
                      Demo.failed_turn wB)
    = Assets.fetched wB
      ++ [{| Request.message := trim (default (Assets.input wB)
                                               (Some "  And the work orders? "));
             Request.history := Assets.history_of wB |}].
Proof.
  apply (X11_one_request_per_turn (H := Demo.host)); reflexivity.
Defined.

Lemma app_one_more {A} (l : list A) (x : A) : l ≠ l ++ [x].
Proof.
  intros Hl. apply (f_equal length) in Hl. rewrite length_app in Hl. simpl in Hl. lia.
Qed.

(** X12.  The send button is disabled exactly when pressing it would
    do nothing: with the text of the input box and the world as they
    are, [sendMessage] returns the world unchanged if and only if the
    button's [disabled] condition holds.  The same goes for the Enter
    key, which sends unless Shift is held. *)
Theorem X12_send_button_matches_guard `{Host}
    (resp : Response) (wA : App.World) (wB : Assets.World) :
  (App.ChatArea.send_disabled (App.input wA) (App.streaming wA) = true
     ↔ App.sendMessage (App.input wA) resp wA = wA)
  ∧ (Assets.send_disabled wB = true ↔ Assets.sendMessage None resp wB = wB)
  ∧ (∀ e, App.ChatArea.handleKeyDown e resp wA ≠ wA ↔
          App.ChatArea.key e = "Enter" ∧ App.ChatArea.shiftKey e = false
          ∧ App.ChatArea.send_disabled (App.input wA) (App.streaming wA) = false)
  ∧ (∀ e, Assets.handleInputKeyDown e resp wB ≠ wB ↔
          Assets.key e = "Enter" ∧ Assets.shiftKey e = false
          ∧ Assets.send_disabled wB = false).
Proof.
  assert (App.ChatArea.send_disabled (App.input wA) (App.streaming wA) = true
          ↔ App.sendMessage (App.input wA) resp wA = wA) as HA.
  { unfold App.ChatArea.send_disabled. split.
    - intros Hd. unfold App.sendMessage. by rewrite Hd.
    - intros Hw. destruct (_ || _) eqn:Hg; [done|]. exfalso.
      assert (App.accepted (App.input wA) wA = true) as Hacc.
      { unfold App.accepted. rewrite not_trim_blank in Hg.
        apply orb_false_iff in Hg as [-> ->]. done. }
      pose proof (App_request_carries_history (App.input wA) resp wA Hacc) as Hf.
      rewrite Hw in Hf. by apply app_one_more in Hf. }
  assert (Assets.send_disabled wB = true ↔ Assets.sendMessage None resp wB = wB) as HB.
  { unfold Assets.send_disabled. rewrite orb_comm. split.
    - intros Hd. unfold Assets.sendMessage.
      change (default (Assets.input wB) None) with (Assets.input wB). by rewrite Hd.
    - intros Hw. destruct (_ || _) eqn:Hg; [done|]. exfalso.
      assert (Assets.accepted None wB = true) as Hacc.
      { unfold Assets.accepted.
        change (default (Assets.input wB) None) with (Assets.input wB).
        rewrite not_trim_blank in Hg. apply orb_false_iff in Hg as [-> ->]. done. }
      pose proof (Assets_request_carries_history None resp wB Hacc) as Hf.
      rewrite Hw in Hf. by apply app_one_more in Hf. }
  split_and!; [done..| |].
  - intros e. unfold App.ChatArea.handleKeyDown.
    destruct (String.eqb_spec (App.ChatArea.key e) "Enter") as [He|He];
      destruct (App.ChatArea.shiftKey e) eqn:Hs; simpl.
    + split; [intros Hw; by destruct Hw|by intros (_ & [=] & _)].
    + destruct (App.ChatArea.send_disabled _ _) eqn:Hd.
      * split; [intros Hw; destruct Hw; by apply HA|by intros (_ & _ & [=])].
      * split; [by intros _|]. intros _ Hw. apply HA in Hw. congruence.
    + split; [intros Hw; by destruct Hw|by intros (? & _)].
    + split; [intros Hw; by destruct Hw|by intros (? & _)].
  - intros e. unfold Assets.handleInputKeyDown.
    destruct (String.eqb_spec (Assets.key e) "Enter") as [He|He];
      destruct (Assets.shiftKey e) eqn:Hs; simpl.
    + split; [intros Hw; by destruct Hw|by intros (_ & [=] & _)].
    + destruct (Assets.send_disabled _) eqn:Hd.
      * split; [intros Hw; destruct Hw; by apply HB|by intros (_ & _ & [=])].
      * split; [by intros _|]. intros _ Hw. apply HB in Hw. congruence.
    + split; [intros Hw; by destruct Hw|by intros (? & _)].
    + split; [intros Hw; by destruct Hw|by intros (? & _)].
Qed.

(** X9.  A request that fails before any of the body is read ([fetch]
    rejects, the status is not ok, or there is no body) ends the turn
    it started like this.  In [App.jsx] the assistant message of the
    turn shows ["**Connection error:** "] followed by the reason, flagged
    as an error and no longer pending; there is no trace entry.  In
    [assets/app.jsx] an assistant message with that text is appended, the
    trace holds one [error] entry with the reason, and the run state is
    ["Error"].  In both the history is what it was and [streaming] is
    off. *)
Theorem X9_failed_request `{Host}
    (text : string) (override : option string) (resp : Response)
    (reasonA reasonB : string) (wA : App.World) (wB : Assets.World) :
  App.accepted text wA = true → Assets.accepted override wB = true →
  App.failure_reason resp = Some reasonA → Assets.failure_reason resp = Some reasonB →
  (last (App.messages (App.sendMessage text resp wA))
     = Some {| App.Message.id := App.assistantId wA; App.Message.role := "assistant";
               App.Message.content := VStr ("**Connection error:** " +:+ reasonA);
               App.Message.pending := VBool false; App.Message.error := VBool true |}
   ∧ App.traces (App.sendMessage text resp wA) = []
   ∧ App.history_of (App.sendMessage text resp wA) = App.history_of wA
   ∧ App.streaming (App.sendMessage text resp wA) = false)
  ∧
  (∃ m t, last (Assets.messages (Assets.sendMessage override resp wB)) = Some m
     ∧ Assets.Message.role m = "assistant"
     ∧ Assets.Message.content m = VStr ("**Connection error:** " +:+ reasonB)
     ∧ Assets.traces (Assets.sendMessage override resp wB) = [t]
     ∧ Assets.Trace.type t = "error"
     ∧ Assets.Trace.message t = or_else (VStr reasonB) (VStr "Unknown error")
     ∧ Assets.runState (Assets.sendMessage override resp wB) = "Error"
     ∧ Assets.history_of (Assets.sendMessage override resp wB) = Assets.history_of wB
     ∧ Assets.streaming (Assets.sendMessage override resp wB) = false).
Proof.
  intros HA HB HrA HrB. split.
  - unfold App.sendMessage. rewrite (App_accepted_guard _ _ HA).
    assert (∀ s, App.try_block (App.assistantId wA) resp s = (s, Some reasonA)) as Ht.
    { intros s. destruct resp; simplify_eq/=; done. }
    unfold App.assistantId in Ht. cbn [App.hostCalls App.setTraces App.setInput
                                       App.setStreaming]. rewrite Ht.
    cbn [App.finalContent truthy String.eqb negb].
    split_and!; [|done..].
    cbn [App.messages App.setMessages App.setStreaming App.hostCalled App.setTraces
         App.setInput App.fetch App.update_assistant].
    unfold App.update_assistant. rewrite !List.map_app, last_app. cbn [List.map last].
    cbn [App.Message.id]. rewrite String.eqb_refl. done.
  - unfold Assets.sendMessage. rewrite (Assets_accepted_guard _ _ HB).
    assert (∀ s, Assets.try_block resp s = (s, Some reasonB)) as Ht.
    { intros s. destruct resp; simplify_eq/=; done. }
    rewrite Ht. cbn [Assets.assistantReply truthy String.eqb negb Assets.hadError].
    destruct (Assets.isCompact _);
      (eexists _, _; split_and!; [apply last_snoc|done..]).
Qed.

Lemma X9_failed_request_witness :
  (last (App.messages (App.sendMessage (H := Demo.host) Demo.question (NotOk 502) App.initial))
     = Some {| App.Message.id := App.assistantId (H := Demo.host) App.initial;
               App.Message.role := "assistant";
               App.Message.content := VStr ("**Connection error:** " +:+ "Server error 502");
               App.Message.pending := VBool false; App.Message.error := VBool true |}
   ∧ App.traces (App.sendMessage (H := Demo.host) Demo.question (NotOk 502) App.initial) = []
   ∧ App.history_of (App.sendMessage (H := Demo.host) Demo.question (NotOk 502) App.initial)
     = App.history_of App.initial
   ∧ App.streaming (App.sendMessage (H := Demo.host) Demo.question (NotOk 502) App.initial)
     = false)
  ∧
  (∃ m t, last (Assets.messages (Assets.sendMessage (H := Demo.host) (Some Demo.question)
                                   (NotOk 502) (Assets.initial true))) = Some m
     ∧ Assets.Message.role m = "assistant"
     ∧ Assets.Message.content m = VStr ("**Connection error:** " +:+ "HTTP 502")
     ∧ Assets.traces (Assets.sendMessage (H := Demo.host) (Some Demo.question)
                        (NotOk 502) (Assets.initial true)) = [t]
     ∧ Assets.Trace.type t = "error"
     ∧ Assets.Trace.message t = or_else (VStr "HTTP 502") (VStr "Unknown error")
     ∧ Assets.runState (Assets.sendMessage (H := Demo.host) (Some Demo.question)
                          (NotOk 502) (Assets.initial true)) = "Error"
     ∧ Assets.history_of (Assets.sendMessage (H := Demo.host) (Some Demo.question)
                            (NotOk 502) (Assets.initial true))
       = Assets.history_of (Assets.initial true)
     ∧ Assets.streaming (Assets.sendMessage (H := Demo.host) (Some Demo.question)
                           (NotOk 502) (Assets.initial true)) = false).
Proof.
  apply (X9_failed_request (H := Demo.host) Demo.question (Some Demo.question) (NotOk 502)
           "Server error 502" "HTTP 502" App.initial (Assets.initial true)); reflexivity.
Defined.

(** ** A new conversation *)

(** X13.  "New conversation" empties messages and traces and points
    the history to a new, empty array.  Pressed when no turn is running,
    it makes the next turn send an empty history.  In [assets/app.jsx]
    it also empties the input box and switches [streaming] off, so that
    a call of [sendMessage] without argument does nothing afterwards
    while one with a text starts a turn even if a turn was streaming
    before.  In [App.jsx], pressed while a turn is running, it does not
    stop the turn: whatever is delivered afterwards, when the turn ends
    with an answer its exchange is stored, and the new history is that
    exchange alone. *)
Theorem X13_new_conversation `{Host}
    (text : string) (resp : Response)
    (wA : App.World) (wB : Assets.World) (toast : Assets.Toast.t)
    (running : App.Turn.t) (wR : App.World) (chunks : list string)
    (thrown : option string) :
  App.accepted text wA = true → blank text = false →
  (App.messages (App.clearConversation wA) = []
   ∧ App.traces (App.clearConversation wA) = []
   ∧ App.history_of (App.clearConversation wA) = []
   ∧ App.fetched (App.sendMessage text resp (App.clearConversation wA))
     = App.fetched wA ++ [{| Request.message := trim text; Request.history := [] |}])
  ∧
  (Assets.messages (fst (Assets.clearConversation (wB, toast))) = []
   ∧ Assets.traces (fst (Assets.clearConversation (wB, toast))) = []
   ∧ Assets.history_of (fst (Assets.clearConversation (wB, toast))) = []
   ∧ Assets.sendMessage None resp (fst (Assets.clearConversation (wB, toast)))
     = fst (Assets.clearConversation (wB, toast))
   ∧ Assets.fetched (Assets.sendMessage (Some text) resp
                       (fst (Assets.clearConversation (wB, toast))))
     = Assets.fetched wB ++ [{| Request.message := trim text; Request.history := [] |}]
   ∧ Assets.Toast.message (snd (Assets.clearConversation (wB, toast)))
     = "Conversation cleared")
  ∧
  (let s := foldl (λ s chunk, App.deliver chunk s)
                  (running, App.clearConversation wR) chunks in
   let answer := App.finalContent (App.Turn.locals (fst s)) in
   App.history_of (App.finish thrown s)
   = if truthy answer then exchange (App.Turn.msgText running) answer else []).
Proof.
  intros HA Hb.
  assert (App.history_of (App.clearConversation wA) = []) as HhA
    by apply Store_read_new.
  assert (Assets.history_of (fst (Assets.clearConversation (wB, toast))) = []) as HhB
    by apply Store_read_new.
  split; [split_and!|split; [split_and!|]]; try done.
  - rewrite App_request_carries_history by done. by rewrite HhA.
  - rewrite Assets_request_carries_history.
    + by rewrite HhB.
    + unfold Assets.accepted. simpl. by rewrite Hb.
  - assert (App.history_of (App.clearConversation wR) = []) as HhR
      by apply Store_read_new.
    destruct (App_deliver_all_session chunks (running, App.clearConversation wR))
      as ((Hr & Ha & _) & Hm & _).
    destruct (foldl _ _ chunks) as [turn' w']. cbn [fst snd] in *.
    unfold App.finish. rewrite Hm.
    destruct (truthy (App.finalContent (App.Turn.locals turn'))).
    + rewrite (App_history_of_remember _ _ _ (App.clearConversation wR))
        by (by destruct thrown).
      by rewrite HhR.
    + rewrite <- HhR. unfold App.history_of. by destruct thrown; simpl; rewrite Hr, Ha.
Qed.

Lemma X13_new_conversation_witness :
  let wA := App.sendMessage (H := Demo.host) Demo.question Demo.deals_turn App.initial in
  let wB := Assets.setStreaming true
              (Assets.sendMessage (H := Demo.host) (Some Demo.question) Demo.deals_turn
                 (Assets.initial false)) in
  let toast := Assets.showToast "Response copied" None in
  let running := {| App.Turn.msgText := Demo.question; App.Turn.assistantId := "a-1";
                    App.Turn.locals := fst Demo.app_midturn; App.Turn.buffer := "" |} in
  (App.messages (App.clearConversation wA) = []
   ∧ App.traces (App.clearConversation wA) = []
   ∧ App.history_of (App.clearConversation wA) = []
   ∧ App.fetched (App.sendMessage (H := Demo.host) Demo.question Demo.deals_turn
                    (App.clearConversation wA))
     = App.fetched wA ++ [{| Request.message := trim Demo.question;
                             Request.history := [] |}])
  ∧
  (Assets.messages (fst (Assets.clearConversation (wB, toast))) = []
   ∧ Assets.traces (fst (Assets.clearConversation (wB, toast))) = []
   ∧ Assets.history_of (fst (Assets.clearConversation (wB, toast))) = []
   ∧ Assets.sendMessage (H := Demo.host) None Demo.deals_turn
       (fst (Assets.clearConversation (wB, toast)))
     = fst (Assets.clearConversation (wB, toast))
   ∧ Assets.fetched (Assets.sendMessage (H := Demo.host) (Some Demo.question)
                       Demo.deals_turn (fst (Assets.clearConversation (wB, toast))))
     = Assets.fetched wB ++ [{| Request.message := trim Demo.question;
                                Request.history := [] |}]
   ∧ Assets.Toast.message (snd (Assets.clearConversation (wB, toast)))
     = "Conversation cleared")
  ∧
  (let s := foldl (λ s chunk, App.deliver (H := Demo.host) chunk s)
                  (running, App.clearConversation (snd Demo.app_midturn))
                  [Demo.frame (Demo.answer "Pipeline is healthy"); Demo.frame Demo.done] in
   let answer := App.finalContent (App.Turn.locals (fst s)) in
   App.history_of (App.finish None s)
   = if truthy answer then exchange Demo.question answer else []).
Proof.
  apply (X13_new_conversation (H := Demo.host)); reflexivity.
Defined.

(** ** The shape of the history *)

Lemma paired_induction (P : list Entry.t → Prop) :
  P [] →
  (∀ u a rest, Entry.role u = "user" → Entry.role a = "assistant" →
               paired rest = true → P rest → P (u :: a :: rest)) →
  ∀ h, paired h = true → P h.
Proof.
  intros H0 H2 h.
  assert (∀ n (k : list Entry.t), length k < n → paired k = true → P k) as Hn.
  { induction n as [|n IH]; intros k Hk; [lia|].
    destruct k as [|u [|a rest]]; simpl; [done|done|].
    intros [[Hu Ha]%andb_true_iff Hr]%andb_true_iff.
    apply String.eqb_eq in Hu, Ha. apply H2; [done..|].
    apply IH; [simpl in Hk; lia|done]. }
  apply (Hn (S (length h))). lia.
Qed.

Lemma paired_exchange (h : list Entry.t) text reply :
  paired h = true → paired (h ++ exchange text reply) = true.
Proof.
  revert h.
  apply (paired_induction (λ h, paired (h ++ exchange text reply) = true)); [done|].
  intros u a rest Hu Ha _ IH. simpl. by rewrite Hu, Ha, IH.
Qed.

Lemma paired_even (h : list Entry.t) : paired h = true → ∃ k, length h = 2 * k.
Proof.
  revert h. apply (paired_induction (λ h, ∃ k, length h = 2 * k)); [by exists 0|].
  intros u a rest _ _ _ [k Hk]. exists (S k). simpl. lia.
Qed.

Lemma paired_drop (h : list Entry.t) :
  paired h = true → ∀ k, paired (drop (2 * k) h) = true.
Proof.
  revert h.
  apply (paired_induction (λ h, ∀ k, paired (drop (2 * k) h) = true));
    [by intros; rewrite drop_nil|].
  intros u a rest Hu Ha Hr IH [|k].
  - simpl. by rewrite Hu, Ha, Hr.
  - replace (2 * S k) with (S (S (2 * k))) by lia. simpl. apply IH.
Qed.

Lemma paired_slice_last (h : list Entry.t) (m : nat) :
  paired h = true → paired (slice_last (2 * m) h) = true.
Proof.
  intros Hh. destruct (paired_even h Hh) as [k Hk]. unfold slice_last.
  replace (length h - 2 * m) with (2 * (k - m)) by lia. by apply paired_drop.
Qed.

(** X14.  The history always consists of whole exchanges, a user
    entry followed by an assistant entry: cutting it to the last forty
    (twenty) entries never separates the two entries of a turn, so the
    history sent to the server never starts with an assistant entry. *)
Theorem X14_history_is_whole_exchanges `{Host}
    (turnsA : list (string * Response)) (turnsB : list (option string * Response))
    (compact : bool) :
  paired (App.history_of (App.session turnsA App.initial)) = true
  ∧ paired (Assets.history_of (Assets.session turnsB (Assets.initial compact))) = true.
Proof.
  split.
  - assert (∀ w, paired (App.history_of w) = true →
                 paired (App.history_of (App.session turnsA w)) = true) as Hs;
      [|by apply Hs].
    induction turnsA as [|[text resp] rest IH]; intros w Hw; [done|].
    apply IH. simpl.
    destruct (App_sendMessage_history_of text resp w) as [->|[reply ->]]; [done|].
    apply (paired_slice_last _ 20). by apply paired_exchange.
  - assert (∀ w, paired (Assets.history_of w) = true →
                 paired (Assets.history_of (Assets.session turnsB w)) = true) as Hs;
      [|by apply Hs].
    induction turnsB as [|[override resp] rest IH]; intros w Hw; [done|].
    apply IH. simpl.
    destruct (Assets_sendMessage_history_of override resp w) as [->|[reply ->]]; [done|].
    apply (paired_slice_last _ 10). by apply paired_exchange.
Qed.

(** ** The messages of a turn *)

Section App_messages.
Context `{Host}.
Implicit Types (s : App.Locals * App.World) (m u a : App.Message.t).

Lemma App_kept_refl aid m : App.kept aid m m.
Proof. by repeat split. Qed.

Lemma App_kept_trans aid m1 m2 m3 :
  App.kept aid m1 m2 → App.kept aid m2 m3 → App.kept aid m1 m3.
Proof.
  intros (Hi & Hr & Hs) (Hi' & Hr' & Hs'). split_and!; [congruence..|].
  intros Hne Hp. specialize (Hs Hne Hp). subst m2. by apply Hs'.
Qed.

Lemma App_kept_update aid (f : App.Message.t → App.Message.t) m :
  (∀ x, App.Message.id (f x) = App.Message.id x) →
  (∀ x, App.Message.role (f x) = App.Message.role x) →
  App.kept aid m (if String.eqb (App.Message.id m) aid then f m else m).
Proof.
  intros Hi Hr. destruct (String.eqb (App.Message.id m) aid) eqn:He;
    [|apply App_kept_refl].
  split_and!; [done..|]. intros Hne. congruence.
Qed.

Lemma App_kept_settle aid m : App.kept aid m (App.settle m).
Proof.
  unfold App.settle. destruct (truthy (App.Message.pending m)) eqn:Hp;
    [|apply App_kept_refl].
  split_and!; [done..|]. intros _ Hp'. congruence.
Qed.

Lemma App_kept_map aid (g : App.Message.t → App.Message.t)
    (old old' : list App.Message.t) :
  (∀ m, App.kept aid m (g m)) →
  Forall2 (App.kept aid) old old' → Forall2 (App.kept aid) old (map g old').
Proof.
  intros Hg. induction 1 as [|m m' l l' Hm _ IH]; simpl; constructor; [|done].
  eapply App_kept_trans; [done|apply Hg].
Qed.

Lemma App_turn_messages_update aid f old u ms :
  (∀ x, App.Message.id (f x) = App.Message.id x) →
  (∀ x, App.Message.role (f x) = App.Message.role x) →
  String.eqb (App.Message.id u) aid = false →
  App.turn_messages aid old u ms →
  App.turn_messages aid old u (App.update_assistant aid f ms).
Proof.
  intros Hi Hr Hu (old' & a & -> & Hold & Ha & Hra).
  unfold App.update_assistant. rewrite List.map_app. simpl. rewrite Hu.
  eexists _, _. split_and!; [done| |..].
  - apply App_kept_map; [|done]. intros m. by apply App_kept_update.
  - by destruct (String.eqb (App.Message.id a) aid); [rewrite Hi|].
  - by destruct (String.eqb (App.Message.id a) aid); [rewrite Hr|].
Qed.

Lemma App_on_event_messages aid event s old u :
  String.eqb (App.Message.id u) aid = false →
  App.turn_messages aid old u (App.messages (snd s)) →
  App.turn_messages aid old u (App.messages (snd (App.on_event aid event s))).
Proof.
  intros Hu Hm. destruct s as [l w]. unfold App.on_event.
  repeat case_match; simpl; try done; by apply App_turn_messages_update.
Qed.

Lemma App_process_lines_messages aid lines s old u :
  String.eqb (App.Message.id u) aid = false →
  App.turn_messages aid old u (App.messages (snd s)) →
  App.turn_messages aid old u (App.messages (snd (App.process_lines aid lines s))).
Proof.
  intros Hu. revert s. induction lines as [|line rest IH]; intros s Hm; simpl; [done|].
  assert (App.turn_messages aid old u (App.messages (snd (App.process_line aid line s))))
    as Hl.
  { unfold App.process_line. repeat case_match; try done.
    by apply App_on_event_messages. }
  case_match; [done|]. by apply IH.
Qed.

Lemma App_try_block_messages aid resp s old u :
  String.eqb (App.Message.id u) aid = false →
  App.turn_messages aid old u (App.messages (snd s)) →
  App.turn_messages aid old u (App.messages (snd (fst (App.try_block aid resp s)))).
Proof.
  intros Hu Hm. destruct resp as [| | |chunks ending]; simpl; try done.
  revert s Hm. generalize "". induction chunks as [|chunk rest IH]; intros buffer s Hm.
  - simpl. by repeat case_match.
  - rewrite App_read_loop_cons. case_match; [done|]. case_match.
    apply IH. by apply App_process_lines_messages.
Qed.

End App_messages.

(** X15.  In [App.jsx] a turn that is started adds two messages at the
    end: the user message with the trimmed text, which no event of the
    turn alters, and the turn's assistant message, which is not pending
    when the turn is over.  No earlier message is removed, moved or
    given another identifier or role, and an earlier message stays as it
    is unless it shares the new assistant identifier or was left
    pending. *)
Theorem X15_App_turn_adds_two_messages `{Host}
    (text : string) (resp : Response) (w : App.World) :
  App.accepted text w = true →
  ∃ old' a,
    App.messages (App.sendMessage text resp w) = old' ++ [App.user_message text w; a]
    ∧ Forall2 (App.kept (App.assistantId w)) (App.messages w) old'
    ∧ App.Message.id a = App.assistantId w
    ∧ App.Message.role a = "assistant"
    ∧ truthy (App.Message.pending a) = false.
Proof.
  intros HA. unfold App.sendMessage. rewrite (App_accepted_guard _ _ HA).
  assert (String.eqb (App.Message.id (App.user_message text w)) (App.assistantId w) = false)
    as Hu by done.
  match goal with |- context [App.try_block ?a resp ?s] =>
    pose proof (App_try_block_messages a resp s (App.messages w)
                  (App.user_message text w) Hu) as Hm;
    destruct (App.try_block a resp s) as [[l2 w2] thrown] end.
  simpl in Hm.
  assert (App.turn_messages (App.assistantId w) (App.messages w)
            (App.user_message text w) (App.messages w2)) as Hm2.
  { apply Hm. eexists _, _. split_and!; [done| |done..].
    apply Forall2_same_length_lookup_2; [done|].
    intros i x y Hx Hy. simplify_eq. apply App_kept_refl. }
  clear Hm.
  assert (∀ ms, App.turn_messages (App.assistantId w) (App.messages w)
                  (App.user_message text w) ms →
    ∃ old' a, map App.settle ms = old' ++ [App.user_message text w; a]
      ∧ Forall2 (App.kept (App.assistantId w)) (App.messages w) old'
      ∧ App.Message.id a = App.assistantId w ∧ App.Message.role a = "assistant"
      ∧ truthy (App.Message.pending a) = false) as Hfin.
  { intros ms (old' & a & -> & Hold & Ha & Hra).
    exists (map App.settle old'), (App.settle a). rewrite List.map_app. split_and!.
    - done.
    - apply App_kept_map; [apply App_kept_settle|done].
    - by rewrite (proj1 (App_kept_settle "" a)).
    - by rewrite (proj1 (proj2 (App_kept_settle "" a))).
    - apply App_settle_not_pending. }
  destruct thrown as [reason|]; destruct (truthy (App.finalContent l2)); simpl;
    apply Hfin; try done;
    by apply App_turn_messages_update.
Qed.

Lemma X15_App_turn_adds_two_messages_witness :
  let w := App.sendMessage (H := Demo.host) Demo.question Demo.deals_turn App.initial in
  ∃ old' a,
    App.messages (App.sendMessage (H := Demo.host) "And the work orders?" Demo.failed_turn w)
      = old' ++ [App.user_message (H := Demo.host) "And the work orders?" w; a]
    ∧ Forall2 (App.kept (App.assistantId (H := Demo.host) w)) (App.messages w) old'
    ∧ App.Message.id a = App.assistantId (H := Demo.host) w
    ∧ App.Message.role a = "assistant"
    ∧ truthy (App.Message.pending a) = false.
Proof.
  apply (X15_App_turn_adds_two_messages (H := Demo.host)). reflexivity.
Defined.

Section Assets_messages.
Context `{Host}.
Implicit Types (s : Assets.Locals * Assets.World) (w : Assets.World).

Lemma Assets_messages_grow_refl (ms : list Assets.Message.t) : Assets.messages_grow ms ms.
Proof. exists []. by rewrite app_nil_r. Qed.

Lemma Assets_messages_grow_trans (ms1 ms2 ms3 : list Assets.Message.t) :
  Assets.messages_grow ms1 ms2 → Assets.messages_grow ms2 ms3 →
  Assets.messages_grow ms1 ms3.
Proof.
  intros (more1 & -> & H1) (more2 & -> & H2). exists (more1 ++ more2).
  split; [by rewrite app_assoc|by apply Forall_app].
Qed.

Lemma Assets_push_assistant text w :
  Assets.messages_grow (Assets.messages w)
    (Assets.messages (Assets.pushAssistantMessage text w)).
Proof. eexists [_]. split; [done|]. by repeat constructor. Qed.

Lemma Assets_on_event_messages ty event s :
  Assets.messages_grow (Assets.messages (snd s))
    (Assets.messages (snd (Assets.on_event ty event s))).
Proof.
  destruct s as [l w]. unfold Assets.on_event, Assets.addTraceResult.
  repeat case_match; simpl;
    first [apply Assets_messages_grow_refl | by eexists [_]; split; [|repeat constructor]].
Qed.

Lemma Assets_process_lines_messages lines s :
  Assets.messages_grow (Assets.messages (snd s))
    (Assets.messages (snd (fst (Assets.process_lines lines s)))).
Proof.
  revert s. induction lines as [|line rest IH]; intros s; simpl;
    [apply Assets_messages_grow_refl|].
  assert (Assets.messages_grow (Assets.messages (snd s))
            (Assets.messages (snd (fst (Assets.process_line line s))))) as Hl.
  { unfold Assets.process_line.
    repeat case_match; simpl;
      auto using Assets_messages_grow_refl, Assets_on_event_messages. }
  destruct (Assets.process_line line s) as [s' [thrown|]]; [done|].
  eapply Assets_messages_grow_trans; [done|apply IH].
Qed.

Lemma Assets_try_block_messages resp s :
  Assets.messages_grow (Assets.messages (snd s))
    (Assets.messages (snd (fst (Assets.try_block resp s)))).
Proof.
  destruct resp as [| | |chunks ending]; simpl; try apply Assets_messages_grow_refl.
  rewrite Assets_read_loop_lines by done.
  pose proof (Assets_process_lines_messages
                (complete_lines ("" +:+ stream_text chunks)) s) as Hl.
  by destruct (Assets.process_lines _ s) as [s' [thrown|]].
Qed.

End Assets_messages.

(** X16.  In [assets/app.jsx] a turn only appends to the messages: the
    messages from before are all there, unchanged and in place; after
    them comes the user message with the trimmed text, and after it
    nothing but assistant messages. *)
Theorem X16_Assets_messages_append_only `{Host}
    (override : option string) (resp : Response) (w : Assets.World) :
  Assets.accepted override w = true →
  ∃ u more,
    Assets.messages (Assets.sendMessage override resp w) = Assets.messages w ++ u :: more
    ∧ Assets.Message.role u = "user"
    ∧ Assets.Message.content u = VStr (trim (default (Assets.input w) override))
    ∧ Forall (λ m, Assets.Message.role m = "assistant") more.
Proof.
  intros HB. unfold Assets.sendMessage. rewrite (Assets_accepted_guard _ _ HB).
  match goal with |- context [Assets.try_block resp ?s] =>
    pose proof (Assets_try_block_messages resp s) as Hm;
    destruct (Assets.try_block resp s) as [[l2 w2] thrown] end.
  simpl in Hm.
  assert (∃ u, Assets.Message.role u = "user"
               ∧ Assets.Message.content u = VStr (trim (default (Assets.input w) override))
               ∧ Assets.messages_grow (Assets.messages w ++ [u]) (Assets.messages w2))
    as (u & Hr & Hc & more & Hw2 & Hmore).
  { destruct (Assets.isCompact w); (eexists; split_and!; [| |exact Hm]; done). }
  match goal with |- ∃ u more, Assets.messages ?final = _ ∧ _ =>
    assert (Assets.messages_grow (Assets.messages w2) (Assets.messages final))
      as (more2 & Hf & Hmore2) end.
  { destruct thrown as [reason|]; simpl.
    - destruct (truthy (Assets.assistantReply l2));
        (eexists [_]; split; [reflexivity|by repeat constructor]).
    - destruct (truthy (Assets.assistantReply l2)), (Assets.hadError l2);
        apply Assets_messages_grow_refl. }
  exists u, (more ++ more2). rewrite Hf, Hw2, <- !app_assoc.
  split_and!; [done..|]. by apply Forall_app.
Qed.

Lemma X16_Assets_messages_append_only_witness :
  let w := Assets.sendMessage (H := Demo.host) (Some Demo.question) Demo.deals_turn
             (Assets.initial false) in
  ∃ u more,
    Assets.messages (Assets.sendMessage (H := Demo.host) (Some "And the work orders?")
                       Demo.failed_turn w) = Assets.messages w ++ u :: more
    ∧ Assets.Message.role u = "user"
    ∧ Assets.Message.content u
      = VStr (trim (default (Assets.input w) (Some "And the work orders?")))
    ∧ Forall (λ m, Assets.Message.role m = "assistant") more.
Proof.
  apply (X16_Assets_messages_append_only (H := Demo.host)). reflexivity.
Defined.

(** ** What the trace panel shows *)

(** X17.  For the rest of a turn a trace card only moves forward.  In
    [assets/app.jsx] an entry stays as it is or its card goes from CALL
    to RESULT; a RESULT or ERROR card, and the count on it, never
    changes.  In [App.jsx] an entry stays as it is or gets resolved,
    and the "records returned" badge, once shown, stays the same. *)
Theorem X17_trace_cards_only_move_forward `{Host}
    (aid : string) (chunks : list string) (ending : Ending) (buffer : string)
    (sA : App.Locals * App.World) (sB : Assets.Locals * Assets.World)
    (i j : nat) (tA : App.Trace.t) (tB : Assets.Trace.t) :
  App.traces (snd sA) !! i = Some tA →
  Assets.traces (snd sB) !! j = Some tB →
  (∃ tA', App.traces (snd (fst (App.read_loop aid chunks ending buffer sA))) !! i = Some tA'
     ∧ (tA' = tA ∨ App.TracePanel.badge tA = None ∧ App.Trace.resolved tA' = true)
     ∧ (∀ n, App.TracePanel.badge tA = Some n → App.TracePanel.badge tA' = Some n))
  ∧
  (∃ tB', Assets.traces (snd (fst (Assets.read_loop chunks ending buffer sB))) !! j = Some tB'
     ∧ (tB' = tB ∨ Assets.TracePanel.cardKind tB = "call"
                   ∧ Assets.TracePanel.cardKind tB' = "result")
     ∧ (Assets.TracePanel.cardKind tB ≠ "call" → tB' = tB)).
Proof.
  intros HA HB. split.
  - destruct (App_read_loop_traces aid chunks ending buffer sA i tA HA) as (t' & Hi & He).
    exists t'. split; [done|].
    destruct He as [->|(Hr & ic & dq & ->)]; [by split; [left|]|].
    unfold App.TracePanel.badge. rewrite Hr. split; [by right|done].
  - destruct (Assets_read_loop_traces chunks ending buffer sB j tB HB) as (t' & Hj & He).
    exists t'. split; [done|].
    destruct He as [->|(Hty & Hr & ic & ->)]; [by split; [left|]|].
    assert (Assets.TracePanel.cardKind tB = "call") as Hk.
    { unfold Assets.TracePanel.cardKind. by rewrite Hty, Hr. }
    split; [right; split; [done|]|by rewrite Hk].
    unfold Assets.TracePanel.cardKind. simpl. by rewrite Hty.
Qed.

Lemma X17_trace_cards_only_move_forward_witness :
  (∃ tA', App.traces (snd (fst (App.read_loop (H := Demo.host) "a-1"
             [Demo.frame (Demo.tool_result "query_deals_board" 5)] Closed ""
             Demo.app_midturn))) !! 0 = Some tA'
     ∧ (tA' = Demo.open_call
        ∨ App.TracePanel.badge Demo.open_call = None ∧ App.Trace.resolved tA' = true)
     ∧ (∀ n, App.TracePanel.badge Demo.open_call = Some n
             → App.TracePanel.badge tA' = Some n))
  ∧
  (∃ tB', Assets.traces (snd (fst (Assets.read_loop (H := Demo.host)
             [Demo.frame (Demo.tool_result "query_deals_board" 5)] Closed ""
             Demo.assets_midturn))) !! 0 = Some tB'
     ∧ (tB' = Demo.assets_open_call
        ∨ Assets.TracePanel.cardKind Demo.assets_open_call = "call"
          ∧ Assets.TracePanel.cardKind tB' = "result")
     ∧ (Assets.TracePanel.cardKind Demo.assets_open_call ≠ "call"
        → tB' = Demo.assets_open_call)).
Proof.
  apply (X17_trace_cards_only_move_forward (H := Demo.host) "a-1"
           [Demo.frame (Demo.tool_result "query_deals_board" 5)] Closed ""
           Demo.app_midturn Demo.assets_midturn 0 0
           Demo.open_call Demo.assets_open_call); reflexivity.
Defined.

(** ** The run state of [assets/app.jsx] *)

Lemma Assets_process_lines_uneventful `{Host} lines
    (s : Assets.Locals * Assets.World) :
  forallb (λ line, match Assets.frame_event line with
                   | Some event => negb (Assets.has_type "error" event)
                                   && bool_decide (is_Some (get event "type"))
                   | None => true
                   end) lines = true →
  snd (Assets.process_lines lines s) = None
  ∧ Assets.hadError (fst (fst (Assets.process_lines lines s))) = Assets.hadError (fst s).
Proof.
  revert s. induction lines as [|line rest IH]; intros s; simpl; [done|].
  intros [Hl Hr]%andb_true_iff.
  assert (snd (Assets.process_line line s) = None
          ∧ Assets.hadError (fst (fst (Assets.process_line line s)))
            = Assets.hadError (fst s)) as [Ht Hh].
  { revert Hl. unfold Assets.frame_event, Assets.process_line, Assets.has_type.
    destruct (startsWith line "data: "); [|done]. cbn [negb].
    destruct (truthy (VStr (trim (slice 6 line)))); [|done]. cbn [negb].
    destruct (JSON_parse _) as [event|]; [|done].
    destruct (get event "type") as [ty|]; [|by rewrite andb_false_r].
    intros [Hne _]%andb_true_iff. apply negb_true_iff in Hne.
    split; [done|]. destruct s as [l w]. unfold Assets.on_event.
    repeat case_match; simpl; congruence. }
  destruct (Assets.process_line line s) as [s' [thrown|]]; [done|].
  simpl in Hh. rewrite <- Hh. by apply IH.
Qed.

(** X18.  In [assets/app.jsx], a turn whose stream closes in the
    regular way and brings no [error] frame and no [null] event ends
    with the run state back at ["Idle"], whatever other frames it
    brought, and with [streaming] off. *)
Theorem X18_uneventful_turn_ends_idle `{Host}
    (override : option string) (resp : Response) (w : Assets.World) :
  Assets.accepted override w = true → Assets.uneventful resp = true →
  Assets.runState (Assets.sendMessage override resp w) = "Idle"
  ∧ Assets.streaming (Assets.sendMessage override resp w) = false.
Proof.
  intros HB Hu. unfold Assets.sendMessage. rewrite (Assets_accepted_guard _ _ HB).
  destruct resp as [| | |chunks [|]]; try done. simpl in Hu.
  match goal with |- context [Assets.try_block _ ?s] =>
    assert (snd (Assets.try_block (Body chunks Closed) s) = None
            ∧ Assets.hadError (fst (fst (Assets.try_block (Body chunks Closed) s))) = false)
      as [Ht Hh];
    [|destruct (Assets.try_block (Body chunks Closed) s) as [[l2 w2] thrown]] end.
  { simpl. rewrite Assets_read_loop_lines by done.
    match goal with |- context [Assets.process_lines ?ls ?s] =>
      destruct (Assets_process_lines_uneventful ls s Hu) as [Ht Hh];
      destruct (Assets.process_lines ls s) as [s' thrown] end.
    simpl in *. by subst thrown. }
  simpl in Ht, Hh. subst thrown. simpl.
  rewrite Hh. by destruct (truthy (Assets.assistantReply l2)).
Qed.

Lemma X18_uneventful_turn_ends_idle_witness :
  Assets.runState (Assets.sendMessage (H := Demo.host) (Some Demo.question)
                     Demo.deals_turn (Assets.initial false)) = "Idle"
  ∧ Assets.streaming (Assets.sendMessage (H := Demo.host) (Some Demo.question)
                        Demo.deals_turn (Assets.initial false)) = false.
Proof.
  apply (X18_uneventful_turn_ends_idle (H := Demo.host)); reflexivity.
Defined.

(** ** What goes into the history *)

Section Stored_reply.
Context `{Host}.

Lemma App_process_lines_reply aid lines (s : App.Locals * App.World) :
  App.finalContent (fst (App.process_lines aid lines s)) = App.finalContent (fst s)
  ∨ ∃ line event, In line lines ∧ App.frame_event line = Some event
      ∧ App.has_type "message" event = true
      ∧ App.finalContent (fst (App.process_lines aid lines s)) = App.prop event "content".
Proof.
  revert s. induction lines as [|line rest IH]; intros s; simpl; [by left|].
  assert (App.finalContent (fst (App.process_line aid line s)) = App.finalContent (fst s)
          ∨ ∃ event, App.frame_event line = Some event
              ∧ App.has_type "message" event = true
              ∧ App.finalContent (fst (App.process_line aid line s))
                = App.prop event "content") as Hl.
  { unfold App.process_line, App.frame_event, App.has_type, App.on_event.
    destruct s as [l w]. destruct (startsWith line "data: "); [|by left]. cbn [negb].
    destruct (JSON_parse _) as [event|]; [|by left].
    destruct (get event "type") as [ty|] eqn:Hty; [|by left].
    repeat case_match; simpl;
      first [by left | right; exists event; rewrite Hty; by split_and!]. }
  destruct (App.doneSignal (fst (App.process_line aid line s))).
  - destruct Hl as [->|(event & ? & ? & ?)]; [by left|right]. eexists _, _. eauto.
  - destruct (IH (App.process_line aid line s)) as [->|(l' & event & ? & ? & ? & ?)].
    + destruct Hl as [->|(event & ? & ? & ?)]; [by left|right]. eexists _, _. eauto.
    + right. eexists _, _. eauto.
Qed.

Lemma Assets_process_lines_reply_from lines (s : Assets.Locals * Assets.World) :
  Assets.assistantReply (fst (fst (Assets.process_lines lines s)))
    = Assets.assistantReply (fst s)
  ∨ ∃ line event, In line lines ∧ Assets.frame_event line = Some event
      ∧ Assets.has_type "message" event = true
      ∧ Assets.assistantReply (fst (fst (Assets.process_lines lines s)))
        = or_else (Assets.prop event "content") (VStr "").
Proof.
  revert s. induction lines as [|line rest IH]; intros s; simpl; [by left|].
  assert (Assets.assistantReply (fst (fst (Assets.process_line line s)))
            = Assets.assistantReply (fst s)
          ∨ ∃ event, Assets.frame_event line = Some event
              ∧ Assets.has_type "message" event = true
              ∧ Assets.assistantReply (fst (fst (Assets.process_line line s)))
                = or_else (Assets.prop event "content") (VStr "")) as Hl.
  { unfold Assets.process_line, Assets.frame_event, Assets.has_type, Assets.on_event.
    destruct s as [l w]. destruct (startsWith line "data: "); [|by left]. cbn [negb].
    destruct (truthy (VStr (trim (slice 6 line)))); [|by left]. cbn [negb].
    destruct (JSON_parse _) as [event|]; [|by left].
    destruct (get event "type") as [ty|] eqn:Hty; [|by left].
    repeat case_match; simpl;
      first [by left | right; exists event; rewrite Hty; by split_and!]. }
  destruct (Assets.process_line line s) as [s' [thrown|]]; simpl in *.
  - destruct Hl as [->|(event & ? & ? & ?)]; [by left|right]. eexists _, _. eauto.
  - destruct (IH s') as [->|(l' & event & ? & ? & ? & ?)].
    + destruct Hl as [->|(event & ? & ? & ?)]; [by left|right]. eexists _, _. eauto.
    + right. eexists _, _. eauto.
Qed.

End Stored_reply.

(** X19.  What a turn stores in the history as the assistant's entry
    is always the content of a [message] frame that the turn's stream
    delivered in full, and never an empty one: the text of an [error]
    event or of a connection error is never stored, and without such a
    frame the history stays as it is. *)
Theorem X19_history_stores_a_delivered_answer `{Host}
    (text : string) (override : option string) (resp : Response)
    (wA : App.World) (wB : Assets.World) :
  (App.history_of (App.sendMessage text resp wA) = App.history_of wA
   ∨ ∃ chunks ending line event,
       resp = Body chunks ending
       ∧ In line (complete_lines (stream_text chunks))
       ∧ App.frame_event line = Some event
       ∧ App.has_type "message" event = true
       ∧ truthy (App.prop event "content") = true
       ∧ App.history_of (App.sendMessage text resp wA)
         = slice_last 40 (App.history_of wA
                          ++ exchange (trim text) (App.prop event "content")))
  ∧
  (Assets.history_of (Assets.sendMessage override resp wB) = Assets.history_of wB
   ∨ ∃ chunks ending line event,
       resp = Body chunks ending
       ∧ In line (complete_lines (stream_text chunks))
       ∧ Assets.frame_event line = Some event
       ∧ Assets.has_type "message" event = true
       ∧ truthy (Assets.prop event "content") = true
       ∧ Assets.history_of (Assets.sendMessage override resp wB)
         = slice_last 20 (Assets.history_of wB
                          ++ exchange (trim (default (Assets.input wB) override))
                                      (Assets.prop event "content"))).
Proof.
  split.
  - unfold App.sendMessage. case_match; [by left|].
    match goal with |- context [App.try_block ?a resp ?s] =>
      pose proof (App_try_block_session a resp s) as (Hr & Ha & _);
      assert (App.finalContent (fst (fst (App.try_block a resp s))) = VStr ""
              ∨ ∃ chunks ending line event, resp = Body chunks ending
                  ∧ In line (complete_lines (stream_text chunks))
                  ∧ App.frame_event line = Some event
                  ∧ App.has_type "message" event = true
                  ∧ App.finalContent (fst (fst (App.try_block a resp s)))
                    = App.prop event "content") as Hf;
      [|destruct (App.try_block a resp s) as [[l2 w2] thrown]] end.
    { destruct resp as [| | |chunks ending]; try by left. simpl.
      rewrite App_read_loop_lines by done.
      match goal with |- context [App.process_lines ?a ?ls ?s] =>
        destruct (App_process_lines_reply a ls s) as [->|(line & event & ? & ? & ? & ?)] end;
        [by left|right]. eexists _, _, _, _. eauto. }
    simpl in Hr, Ha, Hf.
    destruct (truthy (App.finalContent l2)) eqn:Ht.
    + destruct Hf as [Hf|(chunks & ending & line & event & ? & ? & ? & ? & Hf)];
        [by rewrite Hf in Ht|].
      right. exists chunks, ending, line, event. rewrite <- Hf. split_and!; try done.
      apply App_history_of_remember; by destruct thrown.
    + left. unfold App.history_of. by destruct thrown; simpl; rewrite Hr, Ha.
  - unfold Assets.sendMessage. case_match; [by left|].
    match goal with |- context [Assets.try_block resp ?s] =>
      pose proof (Assets_try_block_session resp s) as (Hr & Ha & _);
      assert (Assets.assistantReply (fst (fst (Assets.try_block resp s))) = VStr ""
              ∨ ∃ chunks ending line event, resp = Body chunks ending
                  ∧ In line (complete_lines (stream_text chunks))
                  ∧ Assets.frame_event line = Some event
                  ∧ Assets.has_type "message" event = true
                  ∧ Assets.assistantReply (fst (fst (Assets.try_block resp s)))
                    = or_else (Assets.prop event "content") (VStr "")) as Hf;
      [|destruct (Assets.try_block resp s) as [[l2 w2] thrown]] end.
    { destruct resp as [| | |chunks ending]; try by left. simpl.
      rewrite Assets_read_loop_lines by done.
      match goal with |- context [Assets.process_lines ?ls ?s] =>
        destruct (Assets_process_lines_reply_from ls s)
          as [Hs|(line & event & ? & ? & ? & Hs)];
        destruct (Assets.process_lines ls s) as [s' [thrown|]] end;
        simpl in *; first [by left | right; eexists _, _, _, _; eauto]. }
    simpl in Hr, Ha, Hf.
    assert (Assets.history w2 = Assets.history wB ∧ Assets.arrays w2 = Assets.arrays wB)
      as [Hr2 Ha2].
    { rewrite Hr, Ha. by destruct (Assets.isCompact wB). }
    destruct (truthy (Assets.assistantReply l2)) eqn:Ht.
    + destruct Hf as [Hf|(chunks & ending & line & event & ? & ? & ? & ? & Hf)];
        [by rewrite Hf in Ht|].
      assert (truthy (Assets.prop event "content") = true
              ∧ Assets.assistantReply l2 = Assets.prop event "content") as [Hc Heq].
      { rewrite Hf in Ht |- *. unfold or_else in *.
        by destruct (truthy (Assets.prop event "content")). }
      right. exists chunks, ending, line, event. rewrite <- Heq. split_and!; try done.
      destruct thrown; simpl; [|destruct (Assets.hadError l2)];
        rewrite Ht; by apply Assets_history_of_remember.
    + left. unfold Assets.history_of.
      destruct thrown; simpl; [|destruct (Assets.hadError l2)];
        rewrite Ht; simpl; by rewrite Hr2, Ha2.
Qed.

(** ** Turns side by side *)

(** X20.  In [App.jsx] no two turns run at a time: once a call of
    [sendMessage] has begun a turn, whatever is delivered of its
    response and however often "New Conversation" is pressed meanwhile,
    a further call of [sendMessage] begins no turn and returns the world
    as it was, so that no second request is issued before the turn has
    ended. *)
Theorem X20_App_turns_do_not_overlap `{Host}
    (text : string) (w : App.World) :
  App.accepted text w = true →
  ∃ s, App.begin text w = Some s
       ∧ ∀ (happenings : list App.Happening) (text' : string) (resp : Response),
           let w' := snd (App.during happenings s) in
           App.begin text' w' = None ∧ App.sendMessage text' resp w' = w'.
Proof.
  intros [[turn w1] Hb]%App_begin_accepted. exists (turn, w1). split; [done|].
  intros happenings text' resp. simpl.
  apply App_begin_spec in Hb as (Hs & _).
  assert (App.begin text' (snd (App.during happenings (turn, w1))) = None) as Hn.
  { unfold App.begin. rewrite App_during_streaming. cbn [snd].
    by rewrite Hs, orb_true_r. }
  by rewrite App_sendMessage_steps, Hn.
Qed.

Lemma X20_App_turns_do_not_overlap_witness :
  ∃ s, App.begin (H := Demo.host) Demo.question App.initial = Some s
       ∧ ∀ (happenings : list App.Happening) (text' : string) (resp : Response),
           let w' := snd (App.during (H := Demo.host) happenings s) in
           App.begin (H := Demo.host) text' w' = None
           ∧ App.sendMessage (H := Demo.host) text' resp w' = w'.
Proof.
  apply (X20_App_turns_do_not_overlap (H := Demo.host) Demo.question App.initial).
  reflexivity.
Defined.

(** X21.  The guard of [sendMessage]: called with a text of white space
    only (or, in [assets/app.jsx], with none and such an input box), or
    while the [streaming] flag is on, [sendMessage] returns the world it
    was given: no request is recorded, and messages, traces, history and
    the flag are as before. *)
Theorem X21_guarded_send_is_noop `{Host}
    (text : string) (override : option string) (resp : Response)
    (wA : App.World) (wB : Assets.World) :
  blank text = true ∨ App.streaming wA = true →
  blank (default (Assets.input wB) override) = true ∨ Assets.streaming wB = true →
  App.sendMessage text resp wA = wA
  ∧ Assets.sendMessage override resp wB = wB.
Proof.
  intros HA HB. split.
  - unfold App.sendMessage. rewrite not_trim_blank.
    destruct HA as [-> | ->]; [done|by rewrite orb_true_r].
  - unfold Assets.sendMessage. rewrite not_trim_blank.
    destruct HB as [-> | ->]; [done|by rewrite orb_true_r].
Qed.

Lemma X21_guarded_send_is_noop_witness :
  App.sendMessage (H := Demo.host) "   " Demo.deals_turn App.initial = App.initial
  ∧ Assets.sendMessage (H := Demo.host) None Demo.deals_turn
      (Assets.setStreaming true (Assets.initial false))
    = Assets.setStreaming true (Assets.initial false).
Proof.
  apply (X21_guarded_send_is_noop (H := Demo.host)).
  - left. reflexivity.
  - right. reflexivity.
Defined.

(** X22.  A call of [sendMessage] that starts a turn empties the trace
    list before the request is made, hence before anything of the
    response is handled, and whatever entries it found: the turn begins,
    and ends, as it does from the empty list. *)
Theorem X22_turn_begins_with_no_traces `{Host}
    (text : string) (override : option string) (resp : Response)
    (wA : App.World) (wB : Assets.World)
    (trA : list App.Trace.t) (trB : list Assets.Trace.t) :
  App.accepted text wA = true → Assets.accepted override wB = true →
  (∃ s, App.begin text (App.setTraces (λ _, trA) wA) = Some s
        ∧ App.traces (snd s) = []
        ∧ App.begin text (App.setTraces (λ _, []) wA) = Some s)
  ∧ App.sendMessage text resp (App.setTraces (λ _, trA) wA)
    = App.sendMessage text resp (App.setTraces (λ _, []) wA)
  ∧ (∃ s, Assets.begin override (Assets.setTraces (λ _, trB) wB) = Some s
          ∧ Assets.traces (snd s) = []
          ∧ Assets.begin override (Assets.setTraces (λ _, []) wB) = Some s)
  ∧ Assets.sendMessage override resp (Assets.setTraces (λ _, trB) wB)
    = Assets.sendMessage override resp (Assets.setTraces (λ _, []) wB).
Proof.
  intros HA HB.
  assert (App.begin text (App.setTraces (λ _, trA) wA)
          = App.begin text (App.setTraces (λ _, []) wA)) as HeA by done.
  assert (Assets.begin override (Assets.setTraces (λ _, trB) wB)
          = Assets.begin override (Assets.setTraces (λ _, []) wB)) as HeB.
  { unfold Assets.begin. cbn [Assets.input Assets.streaming Assets.setTraces].
    case_match; [done|]. simpl. by destruct (Assets.isCompact wB). }
  split_and!.
  - assert (App.accepted text (App.setTraces (λ _, trA) wA) = true) as Hacc by done.
    apply App_begin_accepted in Hacc as [[turn w1] Hb]. exists (turn, w1).
    split_and!; [done|by apply App_begin_spec in Hb as (_ & ? & _)|by rewrite <- HeA].
  - assert (App.accepted text (App.setTraces (λ _, []) wA) = true) as Hacc by done.
    apply App_begin_accepted in Hacc as [s Hb].
    by rewrite !App_sendMessage_steps, HeA, Hb.
  - assert (Assets.accepted override (Assets.setTraces (λ _, trB) wB) = true) as Hacc by done.
    apply Assets_begin_accepted in Hacc as [[turn w1] Hb]. exists (turn, w1).
    split_and!; [done|by apply Assets_begin_spec in Hb as (_ & ? & _)|by rewrite <- HeB].
  - assert (Assets.accepted override (Assets.setTraces (λ _, []) wB) = true) as Hacc by done.
    apply Assets_begin_accepted in Hacc as [s Hb].
    by rewrite !Assets_sendMessage_steps, HeB, Hb.
Qed.

Lemma X22_turn_begins_with_no_traces_witness :
  (∃ s, App.begin (H := Demo.host) Demo.question
          (App.setTraces (λ _, [Demo.open_call]) App.initial) = Some s
        ∧ App.traces (snd s) = []
        ∧ App.begin (H := Demo.host) Demo.question
            (App.setTraces (λ _, []) App.initial) = Some s)
  ∧ App.sendMessage (H := Demo.host) Demo.question Demo.deals_turn
      (App.setTraces (λ _, [Demo.open_call]) App.initial)
    = App.sendMessage (H := Demo.host) Demo.question Demo.deals_turn
        (App.setTraces (λ _, []) App.initial)
  ∧ (∃ s, Assets.begin (H := Demo.host) (Some Demo.question)
            (Assets.setTraces (λ _, [Demo.assets_open_call]) (Assets.initial false)) = Some s
          ∧ Assets.traces (snd s) = []
          ∧ Assets.begin (H := Demo.host) (Some Demo.question)
              (Assets.setTraces (λ _, []) (Assets.initial false)) = Some s)
  ∧ Assets.sendMessage (H := Demo.host) (Some Demo.question) Demo.deals_turn
      (Assets.setTraces (λ _, [Demo.assets_open_call]) (Assets.initial false))
    = Assets.sendMessage (H := Demo.host) (Some Demo.question) Demo.deals_turn
        (Assets.setTraces (λ _, []) (Assets.initial false)).
Proof.
  apply (X22_turn_begins_with_no_traces (H := Demo.host)); reflexivity.
Defined.
